(** * privacyscanner: the fingerprinting extractor

    A shallow embedding of
    [privacyscanner/scanmodules/chromedevtools/extractors/fingerprinting.py]:
    the in-page instrumentation ([INSTRUMENTATION_JS]) and the host-side
    [FingerprintingExtractor], with the properties of its specification;
    and of the page comparison of [privacyscanner/scanmodules/network.py]
    and the stream copy of [privacyscanner/utils.py]. *)

From Stdlib Require Import ZArith QArith Ascii String List.
From Stdlib.Strings Require Import Byte.
From stdpp Require Import gmap strings list fin_maps.

Close Scope Q_scope.
Open Scope string_scope.
Open Scope list_scope.

(** ** Python values

    The values a log message carries are decoded JSON: [None], booleans,
    integers, floats, strings, lists and dictionaries with string keys.  A
    finite float is a rational number; NaN and the infinities are not JSON and
    are left out, and negative zero is identified with zero, to which it
    compares equal. *)

#[local] Unset Elimination Schemes.
Inductive pyval : Type :=
  | PNone
  | PBool (b : bool)
  | PInt (z : Z)
  | PFloat (q : Q)
  | PStr (s : string)
  | PList (l : list pyval)
  | PDict (d : gmap string pyval).
#[local] Set Elimination Schemes.

(** The number a value of a numeric type stands for.  [bool] is a subclass of
    [int] in Python: [True] is 1 and [False] is 0. *)
Definition num_of (v : pyval) : option Q :=
  match v with
  | PBool b => Some (inject_Z (Z.b2z b))
  | PInt z => Some (inject_Z z)
  | PFloat q => Some q
  | _ => None
  end.

(** [list.__eq__]: same length and equal items, position by position. *)
Fixpoint list_eqb {A} (f : A -> A -> bool) (a b : list A) : bool :=
  match a, b with
  | [], [] => true
  | u :: a', v :: b' => f u v && list_eqb f a' b'
  | _, _ => false
  end.

(** [dict.__eq__]: same number of keys, and every key of the left dictionary
    is a key of the right one with an equal value. *)
Definition dict_eqb {A} (f : A -> A -> bool) (a b : gmap string A) : bool :=
  (size a =? size b)%nat &&
  map_fold (fun k v acc =>
              acc && match b !! k with Some w => f v w | None => false end)
           true a.

(** Python's [==] on these values.  Numbers compare by value across [bool],
    [int] and [float]; values of unrelated types are unequal. *)
Fixpoint py_eq (x y : pyval) : bool :=
  match x, y with
  | PNone, PNone => true
  | PStr a, PStr b => String.eqb a b
  | PList a, PList b => list_eqb py_eq a b
  | PDict a, PDict b => dict_eqb py_eq a b
  | _, _ =>
      match num_of x, num_of y with
      | Some p, Some q => Qeq_bool p q
      | _, _ => false
      end
  end.

(** [x in l] for a list [l]. *)
Definition py_in (x : pyval) (l : list pyval) : bool := existsb (py_eq x) l.

(** A size for recursion through the nested lists and dictionaries. *)
Fixpoint pysize (v : pyval) : nat :=
  match v with
  | PList l => S (foldr (fun x n => pysize x + n) 0 l)
  | PDict d => S (map_fold (fun _ x n => pysize x + n) 0 d)
  | _ => 1
  end.

(** ** Strings and bytes

    A Python [str] is modelled by the string of its UTF-8 bytes: the
    characters the extractor looks for are ASCII, and an ASCII byte never
    occurs inside the encoding of another character. *)

(** [s.split(sep, 1)] for a one-character separator: the whole string when
    the separator does not occur, else the parts before and after its first
    occurrence. *)
Fixpoint py_split1 (sep : ascii) (s : string) : list string :=
  match s with
  | EmptyString => [EmptyString]
  | String c rest =>
      if Ascii.eqb c sep then [EmptyString; rest]
      else match py_split1 sep rest with
           | hd :: tl => String c hd :: tl
           | [] => [String c EmptyString]
           end
  end.

(** [needle in hay] for strings. *)
Fixpoint str_contains (needle hay : string) : bool :=
  String.prefix needle hay ||
  match hay with
  | EmptyString => false
  | String _ rest => str_contains needle rest
  end.

Open Scope Z_scope.

Definition byte_of_Z (z : Z) : byte :=
  match Byte.of_N (Z.to_N (Z.land z 255)) with
  | Some b => b
  | None => x00
  end.

Definition code (c : ascii) : Z := Z.of_N (N_of_ascii c).

(** [table_a2b_base64] of CPython's [binascii]: the value of a character of
    the base64 alphabet, and 64 for every other character. *)
Definition table_a2b_base64 (c : Z) : Z :=
  if (65 <=? c) && (c <=? 90) then c - 65
  else if (97 <=? c) && (c <=? 122) then c - 71
  else if (48 <=? c) && (c <=? 57) then c + 4
  else if c =? 43 then 62
  else if c =? 47 then 63
  else 64.

Definition BASE64_PAD : Z := 61.

(** The loop of [binascii.a2b_base64] in its default, non-strict mode over
    the remaining input, with the loop variables [quad_pos], [leftchar] and
    [pads] and the output written so far (in reverse).  [None] is
    [binascii.Error]. *)
Fixpoint a2b_base64_loop (input : list Z) (quad_pos leftchar pads : Z)
    (out : list byte) : option (list byte) :=
  match input with
  | [] => if quad_pos =? 0 then Some (rev out) else None
  | this_ch :: rest =>
      if this_ch =? BASE64_PAD then
        if (2 <=? quad_pos) && (4 <=? quad_pos + (pads + 1)) then Some (rev out)
        else a2b_base64_loop rest quad_pos leftchar
               (if 2 <=? quad_pos then pads + 1 else pads) out
      else
        let this_ch := table_a2b_base64 this_ch in
        if 64 <=? this_ch then a2b_base64_loop rest quad_pos leftchar pads out
        else if quad_pos =? 0 then a2b_base64_loop rest 1 this_ch 0 out
        else if quad_pos =? 1 then
          a2b_base64_loop rest 2 (Z.land this_ch 15) 0
            (byte_of_Z (Z.lor (Z.shiftl leftchar 2) (Z.shiftr this_ch 4)) :: out)
        else if quad_pos =? 2 then
          a2b_base64_loop rest 3 (Z.land this_ch 3) 0
            (byte_of_Z (Z.lor (Z.shiftl leftchar 4) (Z.shiftr this_ch 2)) :: out)
        else
          a2b_base64_loop rest 0 0 0
            (byte_of_Z (Z.lor (Z.shiftl leftchar 6) this_ch) :: out)
  end.

Definition codes (s : string) : list Z := map code (list_ascii_of_string s).

(** [base64.b64decode(s)] for a [str] argument: a string with a non-ASCII
    character is refused, everything else goes to [binascii.a2b_base64].
    [None] stands for the [ValueError] (of which [binascii.Error] is a
    subclass) the call raises. *)
Definition b64decode (s : string) : option (list byte) :=
  if forallb (fun c => c <? 128) (codes s)
  then a2b_base64_loop (codes s) 0 0 0 []
  else None.

Close Scope Z_scope.

(** ** The extractor's data *)

(** The dictionary [{'method': ..., 'arguments': ...}] of one intercepted
    function call. *)
Record calldict := { method : pyval; arguments : pyval }.

(** An entry of the misc list: a call dictionary, or the dictionary
    [{'property': ..., 'value': ...}] of a property access. *)
Inductive miscdict :=
  | MiscCall (c : calldict)
  | MiscProperty (property value : pyval).

(** [==] on these dictionaries: the keys are fixed, so two dictionaries of
    the same shape are equal when their values are, and two of different
    shapes are not. *)
Definition calldict_eq (a b : calldict) : bool :=
  py_eq (method a) (method b) && py_eq (arguments a) (arguments b).

Definition miscdict_eq (a b : miscdict) : bool :=
  match a, b with
  | MiscCall c, MiscCall c' => calldict_eq c c'
  | MiscProperty p v, MiscProperty p' v' => py_eq p p' && py_eq v v'
  | _, _ => false
  end.

(** One of the dictionaries [_canvas], [_audio], [_webgl], [_misc]; the key
    ['call_stack'] is absent until finalization sets it. *)
Record category (R : Type) := {
  calls : list R;
  is_fingerprinting : bool;
  call_stack : option (list pyval)
}.
Arguments calls {R} _.
Arguments is_fingerprinting {R} _.
Arguments call_stack {R} _.

(** Modelled from the spec: the scan result that the base class [Extractor]
    of [extractors.base] holds, a module that is not among the sources.  It
    records whether the key ['fingerprinting'] has been assigned and the
    binary artifacts handed to [add_file], oldest first. *)
Record scan_result := {
  fingerprinting_assigned : bool;
  files : list (string * list byte)
}.

Definition add_file (name : string) (content : list byte) (r : scan_result)
    : scan_result :=
  {| fingerprinting_assigned := fingerprinting_assigned r;
     files := files r ++ [(name, content)] |}.

Record FingerprintingExtractor := {
  _canvas : category calldict;
  _audio : category calldict;
  _webgl : category calldict;
  _misc : category miscdict;
  _canvas_call_stack : option (list pyval);
  _audio_call_stack : option (list pyval);
  _webgl_call_stack : option (list pyval);
  _misc_call_stack : option (list pyval);
  _canvas_image : pyval;
  result : scan_result
}.

Definition new_category {R} : category R :=
  {| calls := []; is_fingerprinting := false; call_stack := None |}.

(** [__init__]: the base class supplies [result]. *)
Definition init (r : scan_result) : FingerprintingExtractor :=
  {| _canvas := new_category; _audio := new_category;
     _webgl := new_category; _misc := new_category;
     _canvas_call_stack := None; _audio_call_stack := None;
     _webgl_call_stack := None; _misc_call_stack := None;
     _canvas_image := PNone;
     result := r |}.

(** ** Exceptions and the monad of the methods *)

Inductive pyexc :=
  | KeyError (key : string)
  | UnboundLocalError (name : string)
  | AttributeError (attr : string)
  | ValueError.

Inductive outcome (A : Type) :=
  | Returns (a : A)
  | Raises (e : pyexc).
Arguments Returns {A} a.
Arguments Raises {A} e.

(** A method runs on the extractor, may change it, and returns or raises;
    what it changed before raising stays changed. *)
Definition py (A : Type) : Type :=
  FingerprintingExtractor -> FingerprintingExtractor * outcome A.

#[global] Instance py_ret : MRet py := fun A a self => (self, Returns a).

#[global] Instance py_bind : MBind py := fun A B k m self =>
  match m self with
  | (self', Returns a) => k a self'
  | (self', Raises e) => (self', Raises e)
  end.

Definition raise {A} (e : pyexc) : py A := fun self => (self, Raises e).

Definition get : py FingerprintingExtractor := fun self => (self, Returns self).

Definition update (f : FingerprintingExtractor -> FingerprintingExtractor)
    : py unit :=
  fun self => (f self, Returns tt).

(** [try: body except ValueError: handler]. *)
Definition try_except_ValueError {A} (body handler : py A) : py A :=
  fun self =>
    match body self with
    | (self', Raises ValueError) => handler self'
    | r => r
    end.

(** [message[key]] *)
Definition getitem (message : gmap string pyval) (key : string) : py pyval :=
  match message !! key with
  | Some v => mret v
  | None => raise (KeyError key)
  end.

(** The assignments the methods make. *)
Definition set_calls {R} (l : list R) (c : category R) : category R :=
  {| calls := l; is_fingerprinting := is_fingerprinting c;
     call_stack := call_stack c |}.

Definition set_is_fingerprinting {R} (b : bool) (c : category R) : category R :=
  {| calls := calls c; is_fingerprinting := b; call_stack := call_stack c |}.

Definition set_call_stack {R} (st : list pyval) (c : category R) : category R :=
  {| calls := calls c; is_fingerprinting := is_fingerprinting c;
     call_stack := Some st |}.

Definition with_canvas (f : category calldict -> category calldict)
    (self : FingerprintingExtractor) : FingerprintingExtractor :=
  {| _canvas := f (_canvas self); _audio := _audio self;
     _webgl := _webgl self; _misc := _misc self;
     _canvas_call_stack := _canvas_call_stack self;
     _audio_call_stack := _audio_call_stack self;
     _webgl_call_stack := _webgl_call_stack self;
     _misc_call_stack := _misc_call_stack self;
     _canvas_image := _canvas_image self;
     result := result self |}.

Definition with_audio (f : category calldict -> category calldict)
    (self : FingerprintingExtractor) : FingerprintingExtractor :=
  {| _canvas := _canvas self; _audio := f (_audio self);
     _webgl := _webgl self; _misc := _misc self;
     _canvas_call_stack := _canvas_call_stack self;
     _audio_call_stack := _audio_call_stack self;
     _webgl_call_stack := _webgl_call_stack self;
     _misc_call_stack := _misc_call_stack self;
     _canvas_image := _canvas_image self;
     result := result self |}.

Definition with_webgl (f : category calldict -> category calldict)
    (self : FingerprintingExtractor) : FingerprintingExtractor :=
  {| _canvas := _canvas self; _audio := _audio self;
     _webgl := f (_webgl self); _misc := _misc self;
     _canvas_call_stack := _canvas_call_stack self;
     _audio_call_stack := _audio_call_stack self;
     _webgl_call_stack := _webgl_call_stack self;
     _misc_call_stack := _misc_call_stack self;
     _canvas_image := _canvas_image self;
     result := result self |}.

Definition with_misc (f : category miscdict -> category miscdict)
    (self : FingerprintingExtractor) : FingerprintingExtractor :=
  {| _canvas := _canvas self; _audio := _audio self;
     _webgl := _webgl self; _misc := f (_misc self);
     _canvas_call_stack := _canvas_call_stack self;
     _audio_call_stack := _audio_call_stack self;
     _webgl_call_stack := _webgl_call_stack self;
     _misc_call_stack := _misc_call_stack self;
     _canvas_image := _canvas_image self;
     result := result self |}.

Definition with_canvas_call_stack (st : option (list pyval))
    (self : FingerprintingExtractor) : FingerprintingExtractor :=
  {| _canvas := _canvas self; _audio := _audio self;
     _webgl := _webgl self; _misc := _misc self;
     _canvas_call_stack := st;
     _audio_call_stack := _audio_call_stack self;
     _webgl_call_stack := _webgl_call_stack self;
     _misc_call_stack := _misc_call_stack self;
     _canvas_image := _canvas_image self;
     result := result self |}.

Definition with_canvas_image (v : pyval)
    (self : FingerprintingExtractor) : FingerprintingExtractor :=
  {| _canvas := _canvas self; _audio := _audio self;
     _webgl := _webgl self; _misc := _misc self;
     _canvas_call_stack := _canvas_call_stack self;
     _audio_call_stack := _audio_call_stack self;
     _webgl_call_stack := _webgl_call_stack self;
     _misc_call_stack := _misc_call_stack self;
     _canvas_image := v;
     result := result self |}.

Definition with_result (f : scan_result -> scan_result)
    (self : FingerprintingExtractor) : FingerprintingExtractor :=
  {| _canvas := _canvas self; _audio := _audio self;
     _webgl := _webgl self; _misc := _misc self;
     _canvas_call_stack := _canvas_call_stack self;
     _audio_call_stack := _audio_call_stack self;
     _webgl_call_stack := _webgl_call_stack self;
     _misc_call_stack := _misc_call_stack self;
     _canvas_image := _canvas_image self;
     result := f (result self) |}.

(** ** The methods of [FingerprintingExtractor] *)

(** [l.append(x)] on the list under ['calls']. *)
Definition append {R} (x : R) (c : category R) : category R :=
  set_calls (calls c ++ [x]) c.

(** [x in l] for a list of dictionaries. *)
Definition dict_in {R} (same : R -> R -> bool) (x : R) (l : list R) : bool :=
  existsb (same x) l.

(** [key in message.keys()] *)
Definition has_key (message : gmap string pyval) (key : string) : bool :=
  match message !! key with
  | Some _ => true
  | None => false
  end.

(** Reading a local variable that may not have been assigned. *)
Definition local {A} (name : string) (v : option A) : py A :=
  match v with
  | Some a => mret a
  | None => raise (UnboundLocalError name)
  end.

Definition _receive_canvas_log (message : gmap string pyval)
    (call_stack : list pyval) : py unit :=
  name ← getitem message "name";
  args ← getitem message "arguments";
  update (with_canvas (append {| method := name; arguments := args |}));;
  name ← getitem message "name";
  if py_eq name (PStr "HTMLCanvasElement.toDataURL") then
    update (with_canvas_call_stack (Some (drop 1 call_stack)));;
    retval ← getitem message "retval";
    update (with_canvas_image retval)
  else mret tt.

Definition _receive_audio_log (message : gmap string pyval)
    (call_stack : list pyval) : py unit :=
  name ← getitem message "name";
  args ← getitem message "arguments";
  let calldict := {| method := name; arguments := args |} in
  self ← get;
  if negb (dict_in calldict_eq calldict (calls (_audio self))) then
    update (with_audio (append calldict))
  else mret tt.

Definition _receive_webgl_log (message : gmap string pyval)
    (call_stack : list pyval) : py unit :=
  name ← getitem message "name";
  args ← getitem message "arguments";
  let calldict := {| method := name; arguments := args |} in
  self ← get;
  if negb (dict_in calldict_eq calldict (calls (_webgl self))) then
    update (with_webgl (append calldict))
  else mret tt.

Definition listofcheckedproperties : list pyval :=
  [PStr "userAgent"; PStr "language"; PStr "languages"; PStr "colorDepth"].

Definition _receive_misc_log (message : gmap string pyval)
    (call_stack : list pyval) : py unit :=
  name ← getitem message "name";
  calldict ←
    (if py_in name listofcheckedproperties then
       name ← getitem message "name";
       value ← getitem message "value";
       mret (Some (MiscProperty name value))
     else if has_key message "arguments" then
       name ← getitem message "name";
       args ← getitem message "arguments";
       mret (Some (MiscCall {| method := name; arguments := args |}))
     else mret None);
  calldict ← local "calldict" calldict;
  self ← get;
  if negb (dict_in miscdict_eq calldict (calls (_misc self))) then
    update (with_misc (append calldict))
  else mret tt.

Definition receive_log (log_type : string) (message : gmap string pyval)
    (call_stack : list pyval) : py unit :=
  (if String.eqb log_type "fingerprinting:canvas"
   then _receive_canvas_log message call_stack else mret tt);;
  (if String.eqb log_type "fingerprinting:audio"
   then _receive_audio_log message call_stack else mret tt);;
  (if String.eqb log_type "fingerprinting:webgl"
   then _receive_webgl_log message call_stack else mret tt);;
  (if String.eqb log_type "fingerprinting:misc"
   then _receive_misc_log message call_stack else mret tt).

Definition text_methods : list pyval :=
  [PStr "CanvasRenderingContext2D.fillText";
   PStr "CanvasRenderingContext2D.strokeText"].

(** The [for] loop of [_extract_canvas] with its [break]: the value of
    [uses_text] when the loop is left. *)
Fixpoint uses_text_loop (l : list calldict) : bool :=
  match l with
  | [] => false
  | call :: rest =>
      if py_in (method call) text_methods then true else uses_text_loop rest
  end.

(** [v.split(',', 1)]: only a [str] has the method. *)
Definition split_comma (v : pyval) : py (list string) :=
  match v with
  | PStr s => mret (py_split1 "," s)
  | _ => raise (AttributeError "split")
  end.

(** [a, b = l] *)
Definition unpack2 (l : list string) : py (string * string) :=
  match l with
  | [a; b] => mret (a, b)
  | _ => raise ValueError
  end.

Definition base64_b64decode (s : string) : py (list byte) :=
  match b64decode s with
  | Some content => mret content
  | None => raise ValueError
  end.

(** The truth value of [content], which is [None] or a [bytes] object. *)
Definition truthy (content : option (list byte)) : bool :=
  match content with
  | Some (_ :: _) => true
  | _ => false
  end.

Definition decode_canvas_image : py (option (list byte)) :=
  try_except_ValueError
    (self ← get;
     parts ← split_comma (_canvas_image self);
     '(info_part, data_part) ← unpack2 parts;
     if str_contains "base64" info_part then
       content ← base64_b64decode data_part;
       mret (Some content)
     else mret None)
    (mret None).

Definition _extract_canvas : py unit :=
  self ← get;
  let uses_text := uses_text_loop (calls (_canvas self)) in
  match uses_text, _canvas_call_stack self with
  | true, Some st =>
      update (with_canvas (set_is_fingerprinting true));;
      update (with_canvas (set_call_stack st));;
      content ← decode_canvas_image;
      if truthy content then
        update (with_result (add_file "fingerprinting_canvas" (default [] content)))
      else mret tt
  | _, _ => mret tt
  end;;
  self ← get;
  match _audio_call_stack self with
  | Some st =>
      update (with_audio (set_is_fingerprinting true));;
      update (with_audio (set_call_stack st))
  | None => mret tt
  end;;
  self ← get;
  match _webgl_call_stack self with
  | Some st =>
      update (with_webgl (set_is_fingerprinting true));;
      update (with_webgl (set_call_stack st))
  | None => mret tt
  end;;
  self ← get;
  match _misc_call_stack self with
  | Some st =>
      update (with_misc (set_is_fingerprinting true));;
      update (with_misc (set_call_stack st))
  | None => mret tt
  end.

(** [self.result['fingerprinting'] = {...}] *)
Definition assign_fingerprinting (r : scan_result) : scan_result :=
  {| fingerprinting_assigned := true; files := files r |}.

Definition extract_information : py unit :=
  update (with_result assign_fingerprinting);;
  _extract_canvas.

(** What the result shows under ['fingerprinting'].  The assignment stores
    the four dictionaries themselves, not copies, so the result shows their
    content at the time it is read. *)
Record fingerprinting_result := {
  canvas : category calldict;
  audio : category calldict;
  webgl : category calldict;
  misc : category miscdict
}.

Definition result_fingerprinting (self : FingerprintingExtractor)
    : option fingerprinting_result :=
  if fingerprinting_assigned (result self) then
    Some {| canvas := _canvas self; audio := _audio self;
            webgl := _webgl self; misc := _misc self |}
  else None.

(** ** Runs: the observation phase and the finalization *)

Record log_event := {
  ev_log_type : string;
  ev_message : gmap string pyval;
  ev_call_stack : list pyval
}.

(** The extractor after one event, whether the handler returned or raised. *)
Definition deliver (self : FingerprintingExtractor) (e : log_event)
    : FingerprintingExtractor :=
  fst (receive_log (ev_log_type e) (ev_message e) (ev_call_stack e) self).

Definition observe (evs : list log_event) (self : FingerprintingExtractor)
    : FingerprintingExtractor :=
  fold_left deliver evs self.

Definition finalize (self : FingerprintingExtractor) : FingerprintingExtractor :=
  fst (extract_information self).

(** A whole scan: a fresh extractor, the events in their order, then
    [extract_information]. *)
Definition scan (r : scan_result) (evs : list log_event)
    : FingerprintingExtractor :=
  finalize (observe evs (init r)).

(** ** The in-page instrumentation ([INSTRUMENTATION_JS]) *)

Module JS.

(** JavaScript values, as far as the wrapper handles them: what it is called
    on, what it is called with and what the original returns.  The last four
    are the objects that a non-strict function finds in [this] in place of a
    receiver that is not an object: the global object, and the objects that
    wrap a boolean, a number and a string. *)
#[local] Unset Elimination Schemes.
Inductive value : Type :=
  | Undefined
  | Null
  | Bool (b : bool)
  | Number (q : Q)
  | Str (s : string)
  | Array (l : list value)
  | Object (fields : list (string * value))
  | GlobalObject
  | BooleanObject (b : bool)
  | NumberObject (q : Q)
  | StringObject (s : string).
#[local] Set Elimination Schemes.

(** The values that are objects: the receivers that a non-strict function
    finds in [this] as they are. *)
Definition is_object (v : value) : bool :=
  match v with
  | Undefined | Null | Bool _ | Number _ | Str _ => false
  | Array _ | Object _ | GlobalObject
  | BooleanObject _ | NumberObject _ | StringObject _ => true
  end.

(** The [this] of a function of [INSTRUMENTATION_JS] that is called with the
    receiver [thisArg].  The script has no ['use strict'] directive, so its
    functions are non-strict: [undefined] and [null] are replaced by the
    global object, a primitive by the object that wraps it, and an object is
    taken as it is. *)
Definition this_binding (thisArg : value) : value :=
  match thisArg with
  | Undefined | Null => GlobalObject
  | Bool b => BooleanObject b
  | Number q => NumberObject q
  | Str s => StringObject s
  | Array _ | Object _ | GlobalObject
  | BooleanObject _ | NumberObject _ | StringObject _ => thisArg
  end.

(** How a call ends: with a value, or with a thrown one. *)
Inductive completion :=
  | Normal (v : value)
  | Throw (v : value).

Section Page.

(** The state of the page that the instrumented functions read and write. *)
Variable page : Type.

(** The page together with the log events sent to the host so far, oldest
    first, each with its channel. *)
Record world := {
  page_state : page;
  emitted : list (string * value)
}.

(** A function: from its receiver ([this]) and its [arguments] to its effect
    and its completion. *)
Definition function : Type := value -> list value -> world -> world * completion.

(** Modelled from the spec: [log(log_type, message)], which the injection
    driver provides and [INSTRUMENTATION_JS] only calls, emits one log event
    on the given channel. *)
Definition log (log_type : string) (message : value) (w : world) : world :=
  {| page_state := page_state w;
     emitted := emitted w ++ [(log_type, message)] |}.

(** [instrumentFunction(func, name, log_type)]: the anonymous function it
    returns, called with the receiver [thisArg].  [func.apply(this,
    arguments)] hands the [this] of the anonymous function, a non-strict
    one, to [func].  The body has no [return] statement, so a call that does
    not throw completes with [undefined]. *)
Definition instrumentFunction (func : function) (name log_type : string)
    : function :=
  fun thisArg arguments w =>
    let this := this_binding thisArg in
    match func this arguments w with
    | (w', Normal retval) =>
        (log log_type
           (Object [("type", Str "function");
                    ("name", Str name);
                    ("arguments", Array arguments);
                    ("retval", retval)]) w',
         Normal Undefined)
    | (w', Throw e) => (w', Throw e)
    end.

End Page.

Arguments page_state {page} _.
Arguments emitted {page} _.
Arguments log {page} _ _ _.
Arguments instrumentFunction {page} _ _ _ _ _ _.

(** A stand-in for [HTMLCanvasElement.prototype.toDataURL] on a page whose
    state counts the calls made: it returns a data URL. *)
Definition toDataURL : function nat :=
  fun this arguments w =>
    ({| page_state := S (page_state w); emitted := emitted w |},
     Normal (Str "data:image/png;base64,aGVsbG8=")).

End JS.

(** ** Objects, accessors and the rest of the instrumentation *)

Module Instrumentation.

(** The functions of a page: those the browser provides, told apart by a
    number, and the three kinds of closures that [INSTRUMENTATION_JS]
    creates, each with the variables it captures.  [origGetter] and
    [origSetter] are [None] when [descriptor.get] or [descriptor.set] is
    [undefined]. *)
#[local] Unset Elimination Schemes.
Inductive func : Type :=
  | Native (id : nat)
  | FunctionWrapper (func : func) (name log_type : string)
  | GetterWrapper (origGetter : option func) (name log_type : string)
  | SetterWrapper (origSetter : option func) (name log_type : string).

(** What a data property holds: a plain value or a function. *)
Inductive stored : Type :=
  | Plain (v : JS.value)
  | Function (f : func).

(** A property with its attributes. *)
Inductive property : Type :=
  | DataProperty (value : stored) (writable enumerable configurable : bool)
  | AccessorProperty (get set : option func) (enumerable configurable : bool).

(** An ordinary object: its own properties, its prototype ([None] for
    [null]) and whether properties can be added to it. *)
Inductive object : Type :=
  Object (own : gmap string property) (prototype : option object)
         (extensible : bool).

#[local] Set Elimination Schemes.

Definition own (o : object) : gmap string property :=
  match o with Object props _ _ => props end.

Definition prototype (o : object) : option object :=
  match o with Object _ p _ => p end.

Definition extensible (o : object) : bool :=
  match o with Object _ _ e => e end.

(** The [do ... while] loop of [instrumentProperty]: the descriptor of the
    first object on the prototype chain, from [obj] upward, that has [prop]
    as an own property; [None] when the loop ends at [null]. *)
Fixpoint find_descriptor (o : object) (prop : string) : option property :=
  match o with
  | Object props proto _ =>
      match props !! prop with
      | Some d => Some d
      | None =>
          match proto with
          | Some p => find_descriptor p prop
          | None => None
          end
      end
  end.

(** [descriptor.get] and [descriptor.set]: [undefined] on the descriptor of
    a data property. *)
Definition descriptor_get (d : property) : option func :=
  match d with
  | AccessorProperty g _ _ _ => g
  | DataProperty _ _ _ _ => None
  end.

Definition descriptor_set (d : property) : option func :=
  match d with
  | AccessorProperty _ s _ _ => s
  | DataProperty _ _ _ _ => None
  end.

Definition configurable (d : property) : bool :=
  match d with
  | DataProperty _ _ _ c | AccessorProperty _ _ _ c => c
  end.

(** The value that stands for a thrown [TypeError]. *)
Definition TypeError : JS.value := JS.Object [("name", JS.Str "TypeError")].

(** [Object.defineProperty(obj, prop, {get: g, set: s})].  A new property is
    created non-enumerable and non-configurable, and only on an extensible
    object; an existing configurable property becomes an accessor with the
    two functions and keeps its other attributes; an existing
    non-configurable property refuses the change.  [None] is the
    [TypeError] of a refused definition. *)
Definition defineProperty (obj : object) (prop : string) (g s : func)
    : option object :=
  match obj with
  | Object props proto ext =>
      match props !! prop with
      | None =>
          if ext
          then Some (Object (<[prop := AccessorProperty (Some g) (Some s) false false]> props)
                            proto ext)
          else None
      | Some (DataProperty _ _ e c) | Some (AccessorProperty _ _ e c) =>
          if c
          then Some (Object (<[prop := AccessorProperty (Some g) (Some s) e c]> props)
                            proto ext)
          else None
      end
  end.

(** [instrumentProperty(obj, name, prop, log_type)]: the object afterwards,
    or [None] when [Object.defineProperty] throws. *)
Definition instrumentProperty (obj : object) (name prop log_type : string)
    : option object :=
  match find_descriptor obj prop with
  | None => Some obj
  | Some descriptor =>
      let origGetter := descriptor_get descriptor in
      let origSetter := descriptor_set descriptor in
      defineProperty obj prop (GetterWrapper origGetter name log_type)
                     (SetterWrapper origSetter name log_type)
  end.

Section Page.

(** The state of the page and what the functions of the browser do.  The
    values functions take and return are plain ones. *)
Variable page : Type.
Variable native : nat -> JS.function page.

(** The event of a property access. *)
Definition property_event (name : string) (value : JS.value) (access : string)
    : JS.value :=
  JS.Object [("type", JS.Str "property"); ("name", JS.Str name);
             ("value", value); ("access", JS.Str access)].

(** A call of a function with a receiver and arguments.  A function of
    the browser takes the receiver as it is given; the three closures of
    [INSTRUMENTATION_JS] are non-strict functions, whose [this], which they
    hand on with [apply], is the receiver after [JS.this_binding].  Applying
    [origGetter] or [origSetter] when it is [undefined] throws a
    [TypeError]: in the getter before anything is logged, in the setter
    after the event is logged. *)
Fixpoint call (f : func) : JS.function page :=
  match f with
  | Native id => native id
  | FunctionWrapper func name log_type =>
      JS.instrumentFunction (call func) name log_type
  | GetterWrapper origGetter name log_type =>
      fun thisArg arguments w =>
        let this := JS.this_binding thisArg in
        match origGetter with
        | None => (w, JS.Throw TypeError)
        | Some g =>
            match call g this arguments w with
            | (w', JS.Normal value) =>
                (JS.log log_type (property_event name value "get") w',
                 JS.Normal value)
            | (w', JS.Throw e) => (w', JS.Throw e)
            end
        end
  | SetterWrapper origSetter name log_type =>
      fun thisArg arguments w =>
        let this := JS.this_binding thisArg in
        let w' := JS.log log_type
                    (property_event name (nth 0 arguments JS.Undefined) "set")
                    w in
        match origSetter with
        | None => (w', JS.Throw TypeError)
        | Some s => call s this arguments w'
        end
  end.

(** How a property read ends. *)
Inductive got :=
  | Got (v : stored)
  | Thrown (e : JS.value).

(** [obj[prop]] read with [this] as the receiver: the value of the first
    property found on the prototype chain, through its getter if it is an
    accessor; [undefined] if there is no property or no getter. *)
Definition get_property (obj : object) (prop : string) (this : JS.value)
    (w : JS.world page) : JS.world page * got :=
  match find_descriptor obj prop with
  | Some (DataProperty v _ _ _) => (w, Got v)
  | Some (AccessorProperty (Some g) _ _ _) =>
      match call g this [] w with
      | (w', JS.Normal v) => (w', Got (Plain v))
      | (w', JS.Throw e) => (w', Thrown e)
      end
  | Some (AccessorProperty None _ _ _) | None => (w, Got (Plain JS.Undefined))
  end.

(** [obj[prop] = v] for a plain value [v], in non-strict code, with [obj]
    itself as the receiver [this]: through the setter of an accessor found
    on the chain; else on [obj] itself, unless the property found is not
    writable or [obj] cannot take a new property, in which cases the
    assignment does nothing. *)
Definition assign_own (obj : object) (prop : string) (v : stored) : object :=
  match find_descriptor obj prop with
  | Some (DataProperty _ false _ _) => obj
  | Some (AccessorProperty _ _ _ _) => obj
  | Some (DataProperty _ true _ _) | None =>
      match obj with
      | Object props proto ext =>
          match props !! prop with
          | Some (DataProperty _ _ e c) =>
              Object (<[prop := DataProperty v true e c]> props) proto ext
          | Some (AccessorProperty _ _ _ _) => obj
          | None =>
              if ext
              then Object (<[prop := DataProperty v true true true]> props)
                          proto ext
              else obj
          end
      end
  end.

Definition set_property (obj : object) (prop : string) (v : JS.value)
    (this : JS.value) (w : JS.world page)
    : JS.world page * object * JS.completion :=
  match find_descriptor obj prop with
  | Some (AccessorProperty _ (Some s) _ _) =>
      match call s this [v] w with
      | (w', JS.Normal _) => (w', obj, JS.Normal v)
      | (w', JS.Throw e) => (w', obj, JS.Throw e)
      end
  | _ => (w, assign_own obj prop (Plain v), JS.Normal v)
  end.

(** One turn of the loop of [instrumentObject], for the property [prop].
    [typeof(obj[prop])] reads the property, through its getter if it has
    one; a function can only come from a data property, which the second
    read [obj[prop]] finds unchanged.  In the other branch the call
    [instrumentProperty(obj, prop, propName, log_type)] hands [prop] over as
    the name and [propName] as the property. *)
Definition instrument_one (obj : object) (this : JS.value)
    (name prop log_type : string) (w : JS.world page)
    : JS.world page * object * JS.completion :=
  match get_property obj prop this w with
  | (w', Thrown e) => (w', obj, JS.Throw e)
  | (w', Got (Function f)) =>
      let funcName := (name ++ "." ++ prop)%string in
      (w', assign_own obj prop (Function (FunctionWrapper f funcName log_type)),
       JS.Normal JS.Undefined)
  | (w', Got (Plain _)) =>
      let propName := (name ++ "." ++ prop)%string in
      match instrumentProperty obj prop propName log_type with
      | Some obj' => (w', obj', JS.Normal JS.Undefined)
      | None => (w', obj, JS.Throw TypeError)
      end
  end.

(** [instrumentObject(obj, name, properties, log_type)]; [this] is [obj] as
    a receiver. *)
Fixpoint instrumentObject (obj : object) (this : JS.value) (name : string)
    (properties : list string) (log_type : string) (w : JS.world page)
    : JS.world page * object * JS.completion :=
  match properties with
  | [] => (w, obj, JS.Normal JS.Undefined)
  | prop :: rest =>
      match instrument_one obj this name prop log_type w with
      | (w', obj', JS.Normal _) => instrumentObject obj' this name rest log_type w'
      | thrown => thrown
      end
  end.

End Page.

Arguments call {page} _ _ _ _ _.
Arguments get_property {page} _ _ _ _ _.
Arguments set_property {page} _ _ _ _ _ _.
Arguments instrument_one {page} _ _ _ _ _ _ _.
Arguments instrumentObject {page} _ _ _ _ _ _ _.

(** A page whose state counts the calls of its two functions of the
    browser, the getter of [userAgent] and [toDataURL], and the objects that
    carry them. *)
Definition sample_native (id : nat) : JS.function nat :=
  match id with
  | O => fun this arguments w =>
           ({| JS.page_state := S (JS.page_state w);
               JS.emitted := JS.emitted w |},
            JS.Normal (JS.Str "Mozilla/5.0"))
  | _ => JS.toDataURL
  end.

Definition Navigator_prototype : object :=
  Object {[ "userAgent" := AccessorProperty (Some (Native 0)) None true true ]}
         None true.

Definition navigator : object := Object ∅ (Some Navigator_prototype) true.

(** [navigator] after
    [instrumentProperty(navigator, 'userAgent', 'userAgent', 'fingerprinting:misc')]. *)
Definition instrumented_navigator : object :=
  default navigator
    (instrumentProperty navigator "userAgent" "userAgent" "fingerprinting:misc").

(** The page before and after one call of a function of the browser. *)
Definition start : JS.world nat := {| JS.page_state := 0; JS.emitted := [] |}.

Definition called_once : JS.world nat :=
  {| JS.page_state := 1; JS.emitted := [] |}.

Definition HTMLCanvasElement_prototype : object :=
  Object {[ "toDataURL" := DataProperty (Function (Native 1)) true true true ]}
         None true.

End Instrumentation.

(** ** The network module: comparing two pages *)

Module Network.

(** A [bytes] object is the string of its bytes. *)

(** The characters the pattern [rb'[ \n]'] matches: space and line feed. *)
Definition is_separator (c : ascii) : bool :=
  Ascii.eqb c " " || Ascii.eqb c "010".

(** [pattern.split(s)]: the pieces of [s] between the separators, empty
    pieces included. *)
Fixpoint pattern_split (s : string) : list string :=
  match s with
  | EmptyString => [EmptyString]
  | String c rest =>
      if is_separator c then EmptyString :: pattern_split rest
      else match pattern_split rest with
           | hd :: tl => String c hd :: tl
           | [] => [String c EmptyString]
           end
  end.

(** [{token for token in pattern.split(s) if b'/' not in token}] *)
Definition token_set (s : string) : gset string :=
  list_to_set (filter (fun token => str_contains "/" token = false)
                      (pattern_split s)).

(** The outcome of the division of two lengths: the float nearest to the
    quotient of the two, written as the quotient, or the exception for a
    zero divisor. *)
Inductive quotient :=
  | Ratio (numerator denominator : nat)
  | ZeroDivisionError.

Definition _jaccard_index (a b : string) : quotient :=
  let a := token_set a in
  let b := token_set b in
  let intersection := a ∩ b in
  let union := a ∪ b in
  if (size union =? 0)%nat then ZeroDivisionError
  else Ratio (size intersection) (size union).

(** The URL that [scan_site] fetches for the comparison,
    ['https:/' + site_url.split('/', maxsplit=1)[1]]; [None] is the
    [IndexError] of the subscript on a list of one part. *)
Definition https_url (site_url : string) : option string :=
  match py_split1 "/" site_url with
  | [_; rest] => Some ("https:/" ++ rest)%string
  | _ => None
  end.

End Network.

(** ** Utilities: copying a stream *)

Module Utils.

(** [copy_to(src, dest)].  The source is given by what its successive calls
    [src.read(8192)] return, after which it returns [b'']; the destination
    by what has been written to it.  The result is what is left of the
    source and the destination. *)
Fixpoint copy_to (src : list (list byte)) (dest : list byte)
    : list (list byte) * list byte :=
  match src with
  | [] => ([], dest)
  | data :: rest =>
      match data with
      | [] => (rest, dest)
      | _ :: _ => copy_to rest (dest ++ data)
      end
  end.

End Utils.

(** ** Vocabulary of the properties *)

(** The dictionary the canvas, audio and webgl handlers build from a message
    that has the keys they read. *)
Definition call_record (message : gmap string pyval) : option calldict :=
  name ← message !! "name";
  args ← message !! "arguments";
  Some {| method := name; arguments := args |}.

(** The entry the misc handler builds from a message: a property access for
    a tracked name, a call for another name with arguments, and nothing for
    a message of neither shape. *)
Definition misc_record (message : gmap string pyval) : option miscdict :=
  name ← message !! "name";
  if py_in name listofcheckedproperties
  then value ← message !! "value"; Some (MiscProperty name value)
  else MiscCall <$> call_record message.

Definition on_channel (channel : string) (e : log_event) : bool :=
  String.eqb (ev_log_type e) channel.

(** The record of an event of the canvas, the audio or the webgl channel,
    and the entry of an event of the misc channel. *)
Definition canvas_record (e : log_event) : option calldict :=
  if on_channel "fingerprinting:canvas" e then call_record (ev_message e)
  else None.

Definition audio_record (e : log_event) : option calldict :=
  if on_channel "fingerprinting:audio" e then call_record (ev_message e)
  else None.

Definition webgl_record (e : log_event) : option calldict :=
  if on_channel "fingerprinting:webgl" e then call_record (ev_message e)
  else None.

Definition misc_entry (e : log_event) : option miscdict :=
  if on_channel "fingerprinting:misc" e then misc_record (ev_message e)
  else None.

(** A list after a dictionary is put in under the rule of the audio, webgl
    and misc lists: appended if the list has no equal one, else left out. *)
Definition add_once {R} (same : R -> R -> bool) (x : R) (l : list R)
    : list R :=
  if dict_in same x l then l else l ++ [x].

(** An event that reports a call of the export function. *)
Definition is_export (e : log_event) : bool :=
  match canvas_record e with
  | Some c => py_eq (method c) (PStr "HTMLCanvasElement.toDataURL")
  | None => false
  end.

(** A recorded call of a text-drawing method. *)
Definition text_call (c : calldict) : Prop :=
  method c = PStr "CanvasRenderingContext2D.fillText" \/
  method c = PStr "CanvasRenderingContext2D.strokeText".

(** The three categories whose lists are deduplicated, each with its list
    and with the entry an event stands for.  The call dictionaries of the
    audio and webgl lists are read as entries of the shape the misc list
    has for calls, so that one statement covers the three lists. *)
Inductive dedup_category := Audio | WebGL | Misc.

Definition stored (cat : dedup_category) (self : FingerprintingExtractor)
    : list miscdict :=
  match cat with
  | Audio => MiscCall <$> calls (_audio self)
  | WebGL => MiscCall <$> calls (_webgl self)
  | Misc => calls (_misc self)
  end.

Definition entry_of (cat : dedup_category) (e : log_event) : option miscdict :=
  match cat with
  | Audio => MiscCall <$> audio_record e
  | WebGL => MiscCall <$> webgl_record e
  | Misc => misc_entry e
  end.

(** How many entries of a list equal a given one. *)
Definition count_eq {R} (same : R -> R -> bool) (x : R) (l : list R) : nat :=
  length (filter (fun y => same x y = true) l).

(** No entry of the list has a second one equal to it. *)
Definition no_repeat {R} (same : R -> R -> bool) (l : list R) : Prop :=
  forall x, (count_eq same x l <= 1)%nat.

(** The same event delivered [n] times in a row. *)
Definition deliver_times (n : nat) (e : log_event)
    (self : FingerprintingExtractor) : FingerprintingExtractor :=
  Nat.iter n (fun s => deliver s e) self.

(** ** Sample messages and events *)

Definition function_message (name : string) (args : list pyval)
    (retval : pyval) : gmap string pyval :=
  {[ "type" := PStr "function"; "name" := PStr name;
     "arguments" := PList args; "retval" := retval ]}.


Definition event (channel : string) (message : gmap string pyval)
    (frames : list string) : log_event :=
  {| ev_log_type := channel; ev_message := message;
     ev_call_stack := PStr <$> frames |}.

Definition fillText : log_event :=
  event "fingerprinting:canvas"
    (function_message "CanvasRenderingContext2D.fillText"
       [PStr "Cwm fjordbank"; PInt 2; PInt 15] PNone)
    ["wrapper"; "draw"].

Definition toDataURL (url : string) : log_event :=
  event "fingerprinting:canvas"
    (function_message "HTMLCanvasElement.toDataURL" [] (PStr url))
    ["wrapper"; "export"].

Definition createAnalyser (args : list pyval) : log_event :=
  event "fingerprinting:audio"
    (function_message "AudioContext.createAnalyser" args PNone)
    ["wrapper"; "probe"].

Definition empty_result : scan_result :=
  {| fingerprinting_assigned := false; files := [] |}.

(** A message without a name, and the message of an export without its
    return value. *)
Definition nameless_message : gmap string pyval :=
  {[ "arguments" := PList [] ]}.

Definition export_message : gmap string pyval :=
  {[ "name" := PStr "HTMLCanvasElement.toDataURL"; "arguments" := PList [] ]}.

Definition export_without_retval_event : log_event :=
  {| ev_log_type := "fingerprinting:canvas"; ev_message := export_message;
     ev_call_stack := [PStr "wrapper"; PStr "export"] |}.

(** * Properties *)

(** ** Python's [==] is an equivalence on the modelled values *)

Section ListEqb.
Context {A : Type} (f : A -> A -> bool).

Lemma list_eqb_refl (a : list A) :
  (forall x, In x a -> f x x = true) -> list_eqb f a a = true.
Proof.
  induction a as [|u a IH]; simpl; intros H; [reflexivity|].
  rewrite H by auto. simpl. apply IH. auto.
Qed.

Lemma list_eqb_sym (a b : list A) :
  (forall x y, In x a -> f x y = true -> f y x = true) ->
  list_eqb f a b = true -> list_eqb f b a = true.
Proof.
  revert b. induction a as [|u a IH]; intros [|v b] H; simpl; try done.
  intros [Huv Hab]%andb_true_iff. apply andb_true_iff. split.
  - apply H; auto. now left.
  - apply IH; auto. intros x y Hx. apply H. now right.
Qed.

Lemma list_eqb_sym_rev (a b : list A) :
  (forall x y, In x a -> f y x = true -> f x y = true) ->
  list_eqb f b a = true -> list_eqb f a b = true.
Proof.
  revert b. induction a as [|u a IH]; intros [|v b] H; simpl; try done.
  intros [Huv Hab]%andb_true_iff. apply andb_true_iff. split.
  - apply H; auto. now left.
  - apply IH; auto. intros x y Hx. apply H. now right.
Qed.

Lemma list_eqb_trans (a b c : list A) :
  (forall x y z, In x a -> f x y = true -> f y z = true -> f x z = true) ->
  list_eqb f a b = true -> list_eqb f b c = true -> list_eqb f a c = true.
Proof.
  revert b c. induction a as [|u a IH]; intros [|v b] [|w c] H; simpl; try done.
  intros [Huv Hab]%andb_true_iff [Hvw Hbc]%andb_true_iff.
  apply andb_true_iff. split.
  - apply (H u v w); auto. now left.
  - apply (IH b c); auto. intros x y z Hx. apply H. now right.
Qed.

End ListEqb.

Section DictEqb.
Context {A : Type} (f : A -> A -> bool).

(** The fold of [dict_eqb] holds when every entry of the left dictionary has
    an equal partner on the right. *)
Lemma dict_fold_spec (a b : gmap string A) :
  map_fold (fun k v acc =>
              acc && match b !! k with Some w => f v w | None => false end)
           true a = true <->
  (forall k v, a !! k = Some v -> exists w, b !! k = Some w /\ f v w = true).
Proof.
  apply (map_fold_weak_ind
    (fun r (m : gmap string A) => r = true <->
       (forall k v, m !! k = Some v -> exists w, b !! k = Some w /\ f v w = true))).
  - split; [|done]. intros _ k v. rewrite lookup_empty. done.
  - intros i x m r Hi IH. rewrite andb_true_iff, IH. split.
    + intros [Hm Hx] k v. destruct (decide (i = k)) as [->|Hne].
      * rewrite lookup_insert_eq. intros [= <-].
        destruct (b !! k) as [w|]; [eauto|done].
      * rewrite lookup_insert_ne by done. apply Hm.
    + intros H. split.
      * intros k v Hk. apply H. rewrite lookup_insert_ne; [done|].
        intros ->. congruence.
      * destruct (H i x) as (w & -> & Hw); [|done]. apply lookup_insert_eq.
Qed.

Lemma dict_eqb_spec (a b : gmap string A) :
  dict_eqb f a b = true <->
  size a = size b /\
  (forall k v, a !! k = Some v -> exists w, b !! k = Some w /\ f v w = true).
Proof.
  unfold dict_eqb. rewrite andb_true_iff, Nat.eqb_eq, dict_fold_spec. done.
Qed.

(** Two dictionaries with as many keys, one's keys among the other's, have
    the same keys. *)
Lemma dict_same_keys (a b : gmap string A) k :
  size a = size b ->
  (forall k, is_Some (a !! k) -> is_Some (b !! k)) ->
  is_Some (b !! k) -> is_Some (a !! k).
Proof.
  intros Hsz Hsub Hk.
  assert (dom a = dom b) as Hdom.
  { apply set_subseteq_size_eq.
    - intros j. rewrite !elem_of_dom. apply Hsub.
    - rewrite !size_dom. lia. }
  apply elem_of_dom. rewrite Hdom. apply elem_of_dom. done.
Qed.

Lemma dict_eqb_refl (a : gmap string A) :
  (forall k v, a !! k = Some v -> f v v = true) -> dict_eqb f a a = true.
Proof.
  intros H. apply dict_eqb_spec. split; [done|]. intros k v Hk. eauto.
Qed.

Lemma dict_eqb_sym (a b : gmap string A) :
  (forall k v w, a !! k = Some v -> f v w = true -> f w v = true) ->
  dict_eqb f a b = true -> dict_eqb f b a = true.
Proof.
  intros H [Hsz Hab]%dict_eqb_spec. apply dict_eqb_spec. split; [done|].
  intros k w Hw.
  destruct (dict_same_keys a b k Hsz) as [v Hv]; [|eauto|].
  { intros j [v Hv]. destruct (Hab j v Hv) as (w' & ? & _). eauto. }
  exists v. split; [done|]. destruct (Hab k v Hv) as (w' & Hw' & Hf).
  assert (w' = w) as -> by congruence. eauto.
Qed.

Lemma dict_eqb_sym_rev (a b : gmap string A) :
  (forall k v w, a !! k = Some v -> f w v = true -> f v w = true) ->
  dict_eqb f b a = true -> dict_eqb f a b = true.
Proof.
  intros H [Hsz Hba]%dict_eqb_spec. apply dict_eqb_spec. split; [done|].
  intros k v Hv.
  destruct (dict_same_keys b a k Hsz) as [w Hw]; [|eauto|].
  { intros j [w Hw]. destruct (Hba j w Hw) as (v' & ? & _). eauto. }
  exists w. split; [done|]. destruct (Hba k w Hw) as (v' & Hv' & Hf).
  assert (v' = v) as -> by congruence. eauto.
Qed.

Lemma dict_eqb_trans (a b c : gmap string A) :
  (forall k v w u, a !! k = Some v ->
     f v w = true -> f w u = true -> f v u = true) ->
  dict_eqb f a b = true -> dict_eqb f b c = true -> dict_eqb f a c = true.
Proof.
  intros H [Hsz Hab]%dict_eqb_spec [Hsz' Hbc]%dict_eqb_spec.
  apply dict_eqb_spec. split; [congruence|].
  intros k v Hv. destruct (Hab k v Hv) as (w & Hw & Hvw).
  destruct (Hbc k w Hw) as (u & Hu & Hwu). eauto.
Qed.

End DictEqb.

Lemma pysize_list_item (l : list pyval) (x : pyval) :
  In x l -> (pysize x < pysize (PList l))%nat.
Proof.
  simpl. induction l as [|u l IH]; simpl; [done|].
  intros [->|Hx]; [lia|]. specialize (IH Hx). lia.
Qed.

Lemma pysize_dict_item (d : gmap string pyval) (k : string) (v : pyval) :
  d !! k = Some v -> (pysize v < pysize (PDict d))%nat.
Proof.
  intros Hk. simpl.
  rewrite (map_fold_delete_L _ _ k v d); [lia| |done].
  intros j1 j2 z1 z2 y _ _ _. lia.
Qed.

Lemma py_eq_refl_below (n : nat) :
  forall x, (pysize x < n)%nat -> py_eq x x = true.
Proof.
  induction n as [|n IH]; intros x Hx; [lia|].
  destruct x as [|b|z|q|s|l|d]; simpl.
  - reflexivity.
  - apply Qeq_bool_refl.
  - apply Qeq_bool_refl.
  - apply Qeq_bool_refl.
  - apply String.eqb_refl.
  - apply list_eqb_refl. intros x Hin. apply IH.
    apply pysize_list_item in Hin. lia.
  - apply dict_eqb_refl. intros k v Hk. apply IH.
    apply pysize_dict_item in Hk. lia.
Qed.

Lemma py_eq_refl (x : pyval) : py_eq x x = true.
Proof. apply (py_eq_refl_below (S (pysize x))). lia. Qed.

Lemma py_eq_sym_below (n : nat) :
  forall x y, (pysize x < n)%nat ->
    (py_eq x y = true -> py_eq y x = true) /\
    (py_eq y x = true -> py_eq x y = true).
Proof.
  induction n as [|n IH]; intros x y Hx; [lia|].
  destruct x as [|b|z|q|s|l|d], y as [|b'|z'|q'|s'|l'|d']; simpl;
    try (split; (done || apply Qeq_bool_sym)).
  - rewrite !String.eqb_eq. split; congruence.
  - split.
    + apply list_eqb_sym. intros x y Hin. apply (IH x y).
      apply pysize_list_item in Hin. lia.
    + apply list_eqb_sym_rev. intros x y Hin. apply (IH x y).
      apply pysize_list_item in Hin. lia.
  - split.
    + apply dict_eqb_sym. intros k v w Hk. apply (IH v w).
      apply pysize_dict_item in Hk. lia.
    + apply dict_eqb_sym_rev. intros k v w Hk. apply (IH v w).
      apply pysize_dict_item in Hk. lia.
Qed.

Lemma py_eq_sym (x y : pyval) : py_eq x y = py_eq y x.
Proof.
  destruct (py_eq_sym_below (S (pysize x)) x y) as [H1 H2]; [lia|].
  destruct (py_eq x y) eqn:E1.
  - symmetry. apply H1. reflexivity.
  - destruct (py_eq y x) eqn:E2; [|reflexivity].
    apply H2. reflexivity.
Qed.

Lemma py_eq_trans_below (n : nat) :
  forall x y z, (pysize x < n)%nat ->
    py_eq x y = true -> py_eq y z = true -> py_eq x z = true.
Proof.
  induction n as [|n IH]; intros x y z Hx; [lia|].
  destruct x as [|b|z0|q|s|l|d], y as [|b'|z'|q'|s'|l'|d']; simpl; try done;
    destruct z as [|b''|z''|q''|s''|l''|d'']; simpl; try done;
    try apply Qeq_bool_trans.
  - rewrite !String.eqb_eq. congruence.
  - apply list_eqb_trans. intros x y z Hin. apply IH.
    apply pysize_list_item in Hin. lia.
  - apply dict_eqb_trans. intros k v w u Hk. apply IH.
    apply pysize_dict_item in Hk. lia.
Qed.

Lemma py_eq_trans (x y z : pyval) :
  py_eq x y = true -> py_eq y z = true -> py_eq x z = true.
Proof. apply (py_eq_trans_below (S (pysize x))). lia. Qed.

(** [True == 1] and [False == 0]: booleans are integers. *)
Lemma py_eq_bool_int (b : bool) : py_eq (PBool b) (PInt (Z.b2z b)) = true.
Proof. simpl. apply Qeq_bool_refl. Qed.

Lemma py_eq_str (v : pyval) (s : string) :
  py_eq v (PStr s) = true <-> v = PStr s.
Proof.
  destruct v; simpl; try (split; done).
  rewrite String.eqb_eq. split; congruence.
Qed.

Lemma calldict_eq_refl (c : calldict) : calldict_eq c c = true.
Proof. unfold calldict_eq. now rewrite !py_eq_refl. Qed.

Lemma calldict_eq_sym (a b : calldict) : calldict_eq a b = calldict_eq b a.
Proof.
  unfold calldict_eq.
  now rewrite (py_eq_sym (method a)), (py_eq_sym (arguments a)).
Qed.

Lemma calldict_eq_trans (a b c : calldict) :
  calldict_eq a b = true -> calldict_eq b c = true -> calldict_eq a c = true.
Proof.
  unfold calldict_eq. rewrite !andb_true_iff.
  intros [? ?] [? ?]. split; eapply py_eq_trans; eauto.
Qed.

Lemma miscdict_eq_refl (d : miscdict) : miscdict_eq d d = true.
Proof.
  destruct d; simpl; [apply calldict_eq_refl|]. now rewrite !py_eq_refl.
Qed.

Lemma miscdict_eq_sym (a b : miscdict) : miscdict_eq a b = miscdict_eq b a.
Proof.
  destruct a, b; simpl; try reflexivity; [apply calldict_eq_sym|].
  now rewrite (py_eq_sym property), (py_eq_sym value).
Qed.

Lemma miscdict_eq_trans (a b c : miscdict) :
  miscdict_eq a b = true -> miscdict_eq b c = true -> miscdict_eq a c = true.
Proof.
  destruct a, b; simpl; try done; destruct c; simpl; try done.
  - apply calldict_eq_trans.
  - rewrite !andb_true_iff. intros [? ?] [? ?].
    split; eapply py_eq_trans; eauto.
Qed.

(** ** What each handler does, case by case *)

Lemma _receive_canvas_log_run message call_stack self :
  _receive_canvas_log message call_stack self =
  match message !! "name", message !! "arguments" with
  | None, _ => (self, Raises (KeyError "name"))
  | Some _, None => (self, Raises (KeyError "arguments"))
  | Some name, Some args =>
      let s1 := with_canvas (append {| method := name; arguments := args |}) self in
      if py_eq name (PStr "HTMLCanvasElement.toDataURL") then
        let s2 := with_canvas_call_stack (Some (drop 1 call_stack)) s1 in
        match message !! "retval" with
        | Some retval => (with_canvas_image retval s2, Returns tt)
        | None => (s2, Raises (KeyError "retval"))
        end
      else (s1, Returns tt)
  end.
Proof.
  unfold _receive_canvas_log, getitem, mbind, py_bind, mret, py_ret, raise, update.
  destruct (message !! "name") as [name|]; [|reflexivity].
  destruct (message !! "arguments") as [args|]; [|reflexivity].
  simpl. destruct (py_eq name _); [|reflexivity].
  destruct (message !! "retval"); reflexivity.
Qed.

Lemma _receive_audio_log_run message call_stack self :
  _receive_audio_log message call_stack self =
  match message !! "name", message !! "arguments" with
  | None, _ => (self, Raises (KeyError "name"))
  | Some _, None => (self, Raises (KeyError "arguments"))
  | Some name, Some args =>
      let calldict := {| method := name; arguments := args |} in
      (if dict_in calldict_eq calldict (calls (_audio self)) then self
       else with_audio (append calldict) self, Returns tt)
  end.
Proof.
  unfold _receive_audio_log, getitem, mbind, py_bind, mret, py_ret, raise, update, get.
  destruct (message !! "name") as [name|]; [|reflexivity].
  destruct (message !! "arguments") as [args|]; [|reflexivity].
  simpl. destruct (dict_in _ _ _); reflexivity.
Qed.

Lemma _receive_webgl_log_run message call_stack self :
  _receive_webgl_log message call_stack self =
  match message !! "name", message !! "arguments" with
  | None, _ => (self, Raises (KeyError "name"))
  | Some _, None => (self, Raises (KeyError "arguments"))
  | Some name, Some args =>
      let calldict := {| method := name; arguments := args |} in
      (if dict_in calldict_eq calldict (calls (_webgl self)) then self
       else with_webgl (append calldict) self, Returns tt)
  end.
Proof.
  unfold _receive_webgl_log, getitem, mbind, py_bind, mret, py_ret, raise, update, get.
  destruct (message !! "name") as [name|]; [|reflexivity].
  destruct (message !! "arguments") as [args|]; [|reflexivity].
  simpl. destruct (dict_in _ _ _); reflexivity.
Qed.

Lemma _receive_misc_log_run message call_stack self :
  _receive_misc_log message call_stack self =
  match message !! "name" with
  | None => (self, Raises (KeyError "name"))
  | Some name =>
      let store calldict :=
        (if dict_in miscdict_eq calldict (calls (_misc self)) then self
         else with_misc (append calldict) self, Returns tt) in
      if py_in name listofcheckedproperties then
        match message !! "value" with
        | Some value => store (MiscProperty name value)
        | None => (self, Raises (KeyError "value"))
        end
      else
        match message !! "arguments" with
        | Some args => store (MiscCall {| method := name; arguments := args |})
        | None => (self, Raises (UnboundLocalError "calldict"))
        end
  end.
Proof.
  unfold _receive_misc_log, getitem, has_key, local,
    mbind, py_bind, mret, py_ret, raise, update, get.
  destruct (message !! "name") as [name|]; [|reflexivity].
  destruct (py_in name listofcheckedproperties).
  - destruct (message !! "value") as [value|]; [|reflexivity].
    simpl. destruct (dict_in _ _ _); reflexivity.
  - destruct (message !! "arguments") as [args|]; [|reflexivity].
    simpl. destruct (dict_in _ _ _); reflexivity.
Qed.

Lemma receive_log_run log_type message call_stack self :
  receive_log log_type message call_stack self =
  if String.eqb log_type "fingerprinting:canvas"
  then _receive_canvas_log message call_stack self
  else if String.eqb log_type "fingerprinting:audio"
  then _receive_audio_log message call_stack self
  else if String.eqb log_type "fingerprinting:webgl"
  then _receive_webgl_log message call_stack self
  else if String.eqb log_type "fingerprinting:misc"
  then _receive_misc_log message call_stack self
  else (self, Returns tt).
Proof.
  unfold receive_log, mbind, py_bind.
  destruct (String.eqb log_type "fingerprinting:canvas") eqn:Ec.
  { apply String.eqb_eq in Ec. subst log_type. simpl.
    destruct (_receive_canvas_log message call_stack self) as [s [[]|e]];
      reflexivity. }
  destruct (String.eqb log_type "fingerprinting:audio") eqn:Ea.
  { apply String.eqb_eq in Ea. subst log_type. simpl.
    destruct (_receive_audio_log message call_stack self) as [s [[]|e]];
      reflexivity. }
  destruct (String.eqb log_type "fingerprinting:webgl") eqn:Ew.
  { apply String.eqb_eq in Ew. subst log_type. simpl.
    destruct (_receive_webgl_log message call_stack self) as [s [[]|e]];
      reflexivity. }
  simpl. destruct (String.eqb log_type "fingerprinting:misc"); [|reflexivity].
  destruct (_receive_misc_log message call_stack self) as [s [[]|e]];
    reflexivity.
Qed.

(** ** The dispatcher *)

(** C9. Dispatcher routing: an event whose channel is one of the four fixed
    names goes to the handler of that channel and to no other, so that
    [receive_log] does exactly what that one handler does; an event on any
    other channel is ignored: [receive_log] returns without an exception and
    leaves the extractor as it was. *)
Theorem receive_log_routing log_type message call_stack self :
  (log_type = "fingerprinting:canvas" ->
     receive_log log_type message call_stack self =
     _receive_canvas_log message call_stack self) /\
  (log_type = "fingerprinting:audio" ->
     receive_log log_type message call_stack self =
     _receive_audio_log message call_stack self) /\
  (log_type = "fingerprinting:webgl" ->
     receive_log log_type message call_stack self =
     _receive_webgl_log message call_stack self) /\
  (log_type = "fingerprinting:misc" ->
     receive_log log_type message call_stack self =
     _receive_misc_log message call_stack self) /\
  (log_type <> "fingerprinting:canvas" -> log_type <> "fingerprinting:audio" ->
   log_type <> "fingerprinting:webgl" -> log_type <> "fingerprinting:misc" ->
     receive_log log_type message call_stack self = (self, Returns tt)).
Proof.
  rewrite receive_log_run.
  repeat split.
  - intros ->. reflexivity.
  - intros ->. reflexivity.
  - intros ->. reflexivity.
  - intros ->. reflexivity.
  - intros Hc Ha Hw Hm.
    apply String.eqb_neq in Hc, Ha, Hw, Hm. now rewrite Hc, Ha, Hw, Hm.
Qed.

(** ** One event at a time *)

Ltac py_unfold :=
  unfold _extract_canvas, decode_canvas_image, try_except_ValueError,
    split_comma, unpack2, base64_b64decode, getitem, local,
    mbind, py_bind, mret, py_ret, raise, update, get.

Ltac py_cases :=
  repeat match goal with
  | |- context [match ?x with _ => _ end] =>
      lazymatch x with
      | context [match _ with _ => _ end] => fail
      | _ => destruct x eqn:?
      end; simpl in *; try discriminate; simplify_eq
  end.

(** Unfolds the delivery of an event down to the cases of its handler. *)
Ltac deliver_cases :=
  unfold deliver, is_export, canvas_record, audio_record, webgl_record,
    misc_entry, on_channel, misc_record, call_record, add_once;
  rewrite receive_log_run, ?_receive_canvas_log_run, ?_receive_audio_log_run,
    ?_receive_webgl_log_run, ?_receive_misc_log_run;
  repeat match goal with
  | |- context [String.eqb ?a ?b] =>
      let E := fresh "E" in
      destruct (String.eqb a b) eqn:E;
      [apply String.eqb_eq in E; try rewrite E in *; simpl in * |]
  end;
  rewrite ?_receive_canvas_log_run, ?_receive_audio_log_run,
    ?_receive_webgl_log_run, ?_receive_misc_log_run;
  simpl; try discriminate.

Lemma deliver_canvas_calls self e :
  calls (_canvas (deliver self e)) =
  calls (_canvas self) ++ option_list (canvas_record e).
Proof.
  deliver_cases; py_cases; simpl; rewrite ?app_nil_r; reflexivity.
Qed.

Lemma deliver_canvas_call_stack self e :
  _canvas_call_stack (deliver self e) =
  if is_export e then Some (drop 1 (ev_call_stack e))
  else _canvas_call_stack self.
Proof. deliver_cases; py_cases; reflexivity. Qed.

Lemma deliver_canvas_image self e :
  _canvas_image (deliver self e) =
  if is_export e
  then default (_canvas_image self) (ev_message e !! "retval")
  else _canvas_image self.
Proof. deliver_cases; py_cases; reflexivity. Qed.

Lemma deliver_audio_calls self e :
  calls (_audio (deliver self e)) =
  match audio_record e with
  | Some c => add_once calldict_eq c (calls (_audio self))
  | None => calls (_audio self)
  end.
Proof. deliver_cases; py_cases; reflexivity. Qed.

Lemma deliver_webgl_calls self e :
  calls (_webgl (deliver self e)) =
  match webgl_record e with
  | Some c => add_once calldict_eq c (calls (_webgl self))
  | None => calls (_webgl self)
  end.
Proof. deliver_cases; py_cases; reflexivity. Qed.

Lemma deliver_misc_calls self e :
  calls (_misc (deliver self e)) =
  match misc_entry e with
  | Some d => add_once miscdict_eq d (calls (_misc self))
  | None => calls (_misc self)
  end.
Proof. deliver_cases; py_cases; reflexivity. Qed.

(** The handlers leave the verdicts, the attached stacks, the three unused
    stack fields and the result alone. *)
Lemma deliver_keeps self e :
  let s := deliver self e in
  is_fingerprinting (_canvas s) = is_fingerprinting (_canvas self) /\
  is_fingerprinting (_audio s) = is_fingerprinting (_audio self) /\
  is_fingerprinting (_webgl s) = is_fingerprinting (_webgl self) /\
  is_fingerprinting (_misc s) = is_fingerprinting (_misc self) /\
  call_stack (_canvas s) = call_stack (_canvas self) /\
  call_stack (_audio s) = call_stack (_audio self) /\
  call_stack (_webgl s) = call_stack (_webgl self) /\
  call_stack (_misc s) = call_stack (_misc self) /\
  _audio_call_stack s = _audio_call_stack self /\
  _webgl_call_stack s = _webgl_call_stack self /\
  _misc_call_stack s = _misc_call_stack self /\
  result s = result self.
Proof. deliver_cases; py_cases; repeat split; reflexivity. Qed.

(** ** The observation phase *)

Lemma observe_snoc evs e self :
  observe (evs ++ [e]) self = deliver (observe evs self) e.
Proof. unfold observe. now rewrite fold_left_app. Qed.

Lemma observe_keeps evs self :
  let s := observe evs self in
  is_fingerprinting (_canvas s) = is_fingerprinting (_canvas self) /\
  is_fingerprinting (_audio s) = is_fingerprinting (_audio self) /\
  is_fingerprinting (_webgl s) = is_fingerprinting (_webgl self) /\
  is_fingerprinting (_misc s) = is_fingerprinting (_misc self) /\
  call_stack (_canvas s) = call_stack (_canvas self) /\
  call_stack (_audio s) = call_stack (_audio self) /\
  call_stack (_webgl s) = call_stack (_webgl self) /\
  call_stack (_misc s) = call_stack (_misc self) /\
  _audio_call_stack s = _audio_call_stack self /\
  _webgl_call_stack s = _webgl_call_stack self /\
  _misc_call_stack s = _misc_call_stack self /\
  result s = result self.
Proof.
  induction evs as [|e evs IH] using rev_ind; [simpl; tauto|].
  rewrite observe_snoc. cbv zeta in *.
  pose proof (deliver_keeps (observe evs self) e) as K. cbv zeta in K.
  repeat match goal with H : _ /\ _ |- _ => destruct H end.
  repeat split; congruence.
Qed.

Lemma observe_canvas_calls evs self :
  calls (_canvas (observe evs self)) =
  calls (_canvas self) ++ omap canvas_record evs.
Proof.
  induction evs as [|e evs IH] using rev_ind; simpl.
  - now rewrite app_nil_r.
  - rewrite observe_snoc, deliver_canvas_calls, IH, omap_app, app_assoc.
    simpl. destruct (canvas_record e); reflexivity.
Qed.

Lemma observe_canvas_call_stack evs self :
  _canvas_call_stack (observe evs self) =
  match last (filter (fun e => is_export e = true) evs) with
  | Some e => Some (drop 1 (ev_call_stack e))
  | None => _canvas_call_stack self
  end.
Proof.
  induction evs as [|e evs IH] using rev_ind; [reflexivity|].
  rewrite observe_snoc, deliver_canvas_call_stack, filter_app, IH.
  rewrite filter_cons, filter_nil.
  destruct (is_export e) eqn:E.
  - rewrite decide_True by done. now rewrite last_snoc.
  - rewrite decide_False by done. now rewrite app_nil_r.
Qed.

Lemma last_filter_None {A} (P : A -> Prop) `{forall x, Decision (P x)}
    (l : list A) :
  last (filter P l) = None <-> forall x, In x l -> ~ P x.
Proof.
  rewrite last_None. split.
  - intros Hnil x Hx HP.
    assert (x ∈ filter P l) as Hin
      by (apply list_elem_of_filter; split; [done|now apply list_elem_of_In]).
    rewrite Hnil in Hin. inversion Hin.
  - intros Hall. destruct (filter P l) as [|x l'] eqn:E; [done|].
    assert (x ∈ filter P l) as Hin by (rewrite E; left).
    apply list_elem_of_filter in Hin as [HP Hx].
    apply list_elem_of_In in Hx. now destruct (Hall x Hx).
Qed.

(** ** Finalization *)

Ltac finalize_cases :=
  unfold finalize, extract_information; py_unfold; simpl;
  py_cases; simpl.

Lemma text_methods_spec (c : calldict) :
  py_in (method c) text_methods = true <-> text_call c.
Proof.
  unfold py_in, text_methods, text_call. simpl.
  rewrite orb_false_r, orb_true_iff, !py_eq_str. reflexivity.
Qed.

Lemma uses_text_loop_spec (l : list calldict) :
  uses_text_loop l = true <-> exists c, In c l /\ text_call c.
Proof.
  induction l as [|call rest IH]; cbn [uses_text_loop In].
  - split; [done|]. intros (c & [] & _).
  - destruct (py_in (method call) text_methods) eqn:E.
    + apply text_methods_spec in E. split; [|done]. eauto.
    + rewrite IH. split.
      * intros (c & Hc & Ht). eauto.
      * intros (c & [->|Hc] & Ht); [|eauto].
        apply text_methods_spec in Ht. congruence.
Qed.

Lemma finalize_canvas_verdict self :
  is_fingerprinting (_canvas (finalize self)) =
  is_fingerprinting (_canvas self) ||
  (uses_text_loop (calls (_canvas self)) &&
   match _canvas_call_stack self with Some _ => true | None => false end).
Proof.
  finalize_cases; rewrite ?orb_true_r, ?orb_false_r; reflexivity.
Qed.

Lemma finalize_canvas_call_stack self :
  call_stack (_canvas (finalize self)) =
  if uses_text_loop (calls (_canvas self))
  then match _canvas_call_stack self with
       | Some st => Some st
       | None => call_stack (_canvas self)
       end
  else call_stack (_canvas self).
Proof. finalize_cases; reflexivity. Qed.

Lemma finalize_calls self :
  calls (_canvas (finalize self)) = calls (_canvas self) /\
  calls (_audio (finalize self)) = calls (_audio self) /\
  calls (_webgl (finalize self)) = calls (_webgl self) /\
  calls (_misc (finalize self)) = calls (_misc self).
Proof. finalize_cases; repeat split; reflexivity. Qed.

(** Without a captured stack a category is left as it is. *)
Lemma finalize_inert self :
  (_audio_call_stack self = None -> _audio (finalize self) = _audio self) /\
  (_webgl_call_stack self = None -> _webgl (finalize self) = _webgl self) /\
  (_misc_call_stack self = None -> _misc (finalize self) = _misc self).
Proof.
  repeat split; intros Hnone; finalize_cases; reflexivity.
Qed.

Lemma finalize_assigned self :
  fingerprinting_assigned (result (finalize self)) = true.
Proof. finalize_cases; reflexivity. Qed.

Lemma finalize_canvas_stack_field self :
  _canvas_call_stack (finalize self) = _canvas_call_stack self.
Proof. finalize_cases; congruence. Qed.

Lemma export_seen evs r :
  _canvas_call_stack (observe evs (init r)) <> None <->
  exists e, In e evs /\ is_export e = true.
Proof.
  rewrite observe_canvas_call_stack. simpl.
  destruct (last (filter _ evs)) as [e|] eqn:E.
  - split; [intros _|done]. exists e.
    apply last_Some_elem_of, list_elem_of_filter in E as [He Hin].
    split; [now apply list_elem_of_In|done].
  - split; [done|]. intros (e & Hin & He).
    pose proof (proj1 (last_filter_None _ _) E) as Hnone.
    now destruct (Hnone e Hin).
Qed.

(** ** The verdicts *)

(** C2. Conjunctive canvas rule: after a scan, the canvas entry of the result
    has [is_fingerprinting] true exactly when (a) one of its recorded calls
    is a call of a text-drawing method, [fillText] or [strokeText], and (b)
    an event of the export function [toDataURL] was received, which is
    exactly when a canvas call stack was captured.  With only one of the two
    the verdict is false. *)
Theorem canvas_rule (r : scan_result) (evs : list log_event) :
  exists res, result_fingerprinting (scan r evs) = Some res /\
    (is_fingerprinting (canvas res) = true <->
       (exists c, In c (calls (canvas res)) /\ text_call c) /\
       (exists e, In e evs /\ is_export e = true)) /\
    (_canvas_call_stack (scan r evs) <> None <->
       exists e, In e evs /\ is_export e = true) /\
    ((forall c, In c (calls (canvas res)) -> ~ text_call c) ->
       is_fingerprinting (canvas res) = false) /\
    ((forall e, In e evs -> is_export e = false) ->
       is_fingerprinting (canvas res) = false).
Proof.
  unfold result_fingerprinting, scan. rewrite finalize_assigned.
  eexists. split; [reflexivity|]. simpl.
  set (observed := observe evs (init r)).
  assert (is_fingerprinting (_canvas (finalize observed)) = true <->
     (exists c, In c (calls (_canvas (finalize observed))) /\ text_call c) /\
     (exists e, In e evs /\ is_export e = true)) as Hrule.
  { rewrite finalize_canvas_verdict.
    destruct (finalize_calls observed) as (-> & _).
    destruct (observe_keeps evs (init r)) as (Hfp & _). fold observed in Hfp.
    rewrite Hfp. simpl.
    rewrite andb_true_iff, uses_text_loop_spec, <- (export_seen evs r).
    fold observed. destruct (_canvas_call_stack observed); split;
      intros [? ?]; split; congruence. }
  split; [exact Hrule|]. split; [|split].
  - rewrite finalize_canvas_stack_field. apply export_seen.
  - intros Hno. apply not_true_is_false. intros Hfp.
    apply Hrule in Hfp as [(c & Hc & Ht) _]. now apply (Hno c).
  - intros Hno. apply not_true_is_false. intros Hfp.
    apply Hrule in Hfp as [_ (e & He & Hx)]. rewrite (Hno e He) in Hx. done.
Qed.

(** The three unused stack fields stay [None] throughout the observation. *)
Lemma observe_inert evs r :
  let s := observe evs (init r) in
  _audio_call_stack s = None /\ _webgl_call_stack s = None /\
  _misc_call_stack s = None.
Proof.
  destruct (observe_keeps evs (init r))
    as (_ & _ & _ & _ & _ & _ & _ & _ & Ha & Hw & Hm & _).
  cbv zeta. rewrite Ha, Hw, Hm. repeat split.
Qed.

(** C5. Baseline for audio, webgl and misc: whatever events were received,
    after finalization the audio, webgl and misc entries of the result have
    [is_fingerprinting] false and no [call_stack], since no handler captures
    a call stack for them. *)
Theorem audio_webgl_misc_never_fingerprinting (r : scan_result)
    (evs : list log_event) :
  exists res, result_fingerprinting (scan r evs) = Some res /\
    is_fingerprinting (audio res) = false /\ call_stack (audio res) = None /\
    is_fingerprinting (webgl res) = false /\ call_stack (webgl res) = None /\
    is_fingerprinting (misc res) = false /\ call_stack (misc res) = None.
Proof.
  unfold result_fingerprinting, scan. rewrite finalize_assigned.
  eexists. split; [reflexivity|]. simpl.
  destruct (observe_inert evs r) as (Ha & Hw & Hm).
  destruct (finalize_inert (observe evs (init r))) as (Fa & Fw & Fm).
  rewrite (Fa Ha), (Fw Hw), (Fm Hm).
  destruct (observe_keeps evs (init r))
    as (_ & -> & -> & -> & _ & -> & -> & -> & _).
  repeat split.
Qed.

(** ** The canvas list and the export candidate *)

Lemma canvas_record_Some e c :
  canvas_record e = Some c <->
  ev_log_type e = "fingerprinting:canvas" /\
  ev_message e !! "name" = Some (method c) /\
  ev_message e !! "arguments" = Some (arguments c).
Proof.
  unfold canvas_record, on_channel, call_record.
  destruct (String.eqb_spec (ev_log_type e) "fingerprinting:canvas") as [->|Hne].
  - destruct (ev_message e !! "name") as [name|]; simpl.
    + destruct (ev_message e !! "arguments") as [args|]; simpl.
      * destruct c as [m a]. simpl. split.
        -- intros [= <- <-]. done.
        -- intros (_ & [= ->] & [= ->]). done.
      * split; [done|]. intros (_ & _ & ?). done.
    + split; [done|]. intros (_ & ? & _). done.
  - split; [done|]. intros (? & _). done.
Qed.

Lemma is_export_true e :
  is_export e = true <->
  ev_log_type e = "fingerprinting:canvas" /\
  ev_message e !! "name" = Some (PStr "HTMLCanvasElement.toDataURL") /\
  is_Some (ev_message e !! "arguments").
Proof.
  unfold is_export. destruct (canvas_record e) as [c|] eqn:E.
  - apply canvas_record_Some in E as (Hch & Hn & Ha).
    rewrite py_eq_str. split.
    + intros Hm. rewrite Hm in Hn. eauto.
    + intros (_ & Hn' & _). congruence.
  - split; [done|]. intros (Hch & Hn & [args Ha]).
    assert (canvas_record e =
            Some {| method := PStr "HTMLCanvasElement.toDataURL";
                    arguments := args |}) as E'
      by (apply canvas_record_Some; done).
    congruence.
Qed.

(** C7. Canvas order preservation: the canvas list is never deduplicated.
    For every sequence of events of the canvas channel that carry a name and
    arguments, the list has one record per event, in the order of delivery,
    with the name and the arguments of the event, duplicates included; and
    finalization leaves the list as it is. *)
Theorem canvas_calls_in_order (r : scan_result) (evs : list log_event) :
  Forall (fun e => ev_log_type e = "fingerprinting:canvas" /\
                   is_Some (ev_message e !! "name") /\
                   is_Some (ev_message e !! "arguments")) evs ->
  Forall2 (fun e c => ev_message e !! "name" = Some (method c) /\
                      ev_message e !! "arguments" = Some (arguments c))
          evs (calls (_canvas (observe evs (init r)))) /\
  calls (_canvas (scan r evs)) = calls (_canvas (observe evs (init r))).
Proof.
  intros Hwf. split; [|apply finalize_calls].
  rewrite observe_canvas_calls. simpl.
  induction Hwf as [|e evs (Hch & [name Hn] & [args Ha]) _ IH]; simpl.
  - constructor.
  - assert (canvas_record e = Some {| method := name; arguments := args |})
      as -> by (apply canvas_record_Some; done).
    constructor; [done|exact IH].
Qed.

Lemma observe_canvas_image evs self :
  Forall (fun e => is_export e = true -> is_Some (ev_message e !! "retval"))
         evs ->
  match last (filter (fun e => is_export e = true) evs) with
  | Some e => Some (_canvas_image (observe evs self)) = ev_message e !! "retval"
  | None => _canvas_image (observe evs self) = _canvas_image self
  end.
Proof.
  induction evs as [|e evs IH] using rev_ind; [reflexivity|].
  intros [Hevs He]%Forall_app. apply Forall_cons in He as [He _].
  rewrite observe_snoc, deliver_canvas_image, filter_app.
  rewrite filter_cons, filter_nil.
  destruct (is_export e) eqn:E.
  - rewrite decide_True by done. rewrite last_snoc.
    destruct (He eq_refl) as [rv ->]. reflexivity.
  - rewrite decide_False by done. rewrite app_nil_r. now apply IH.
Qed.

(** C8. Most recent export wins, first frame stripped: when an event of the
    canvas channel with the method [HTMLCanvasElement.toDataURL] is received,
    the handler returns with the image candidate set to the return value of
    the event and the canvas call stack set to the received stack without its
    first frame; and after any sequence of events, the candidate and the
    stack are those of the last such event, or still unset when there was
    none. *)
Theorem most_recent_export_wins :
  (forall self e args retval,
     ev_log_type e = "fingerprinting:canvas" ->
     ev_message e !! "name" = Some (PStr "HTMLCanvasElement.toDataURL") ->
     ev_message e !! "arguments" = Some args ->
     ev_message e !! "retval" = Some retval ->
     snd (receive_log (ev_log_type e) (ev_message e) (ev_call_stack e) self)
       = Returns tt /\
     _canvas_image (deliver self e) = retval /\
     _canvas_call_stack (deliver self e) = Some (drop 1 (ev_call_stack e))) /\
  (forall r evs,
     Forall (fun e => is_export e = true -> is_Some (ev_message e !! "retval"))
            evs ->
     match last (filter (fun e => is_export e = true) evs) with
     | Some e =>
         Some (_canvas_image (observe evs (init r))) = ev_message e !! "retval" /\
         _canvas_call_stack (observe evs (init r)) =
           Some (drop 1 (ev_call_stack e))
     | None =>
         _canvas_image (observe evs (init r)) = PNone /\
         _canvas_call_stack (observe evs (init r)) = None
     end).
Proof.
  split.
  - intros self e args retval Hch Hn Ha Hr.
    assert (is_export e = true) as Hx by (apply is_export_true; eauto).
    rewrite deliver_canvas_image, deliver_canvas_call_stack, Hx, Hr.
    split; [|done].
    rewrite receive_log_run, Hch. simpl.
    rewrite _receive_canvas_log_run, Hn, Ha, Hr. reflexivity.
  - intros r evs Hwf.
    pose proof (observe_canvas_image evs (init r) Hwf) as Hi.
    pose proof (observe_canvas_call_stack evs (init r)) as Hs.
    destruct (last (filter _ evs)); split; assumption.
Qed.

(** ** The misc handler *)



(** ** The canvas evidence *)

Lemma no_char_cons (sep c : ascii) (s : string) :
  str_contains (String sep EmptyString) (String c s) = false ->
  Ascii.eqb c sep = false /\ str_contains (String sep EmptyString) s = false.
Proof.
  cbn [str_contains String.prefix]. intros [Hp Hs]%orb_false_iff.
  split; [|exact Hs].
  destruct (ascii_dec sep c) as [->|Hne].
  - destruct s; discriminate Hp.
  - apply Ascii.eqb_neq. congruence.
Qed.

(** [split(',', 1)] cuts at the first separator. *)
Lemma py_split1_cut (sep : ascii) (a b : string) :
  str_contains (String sep EmptyString) a = false ->
  py_split1 sep (a ++ String sep b)%string = [a; b].
Proof.
  induction a as [|c a IH]; intros Hno.
  - simpl. now rewrite Ascii.eqb_refl.
  - apply no_char_cons in Hno as [Hc Hno]. simpl. now rewrite Hc, IH.
Qed.

Lemma py_split1_whole (sep : ascii) (s : string) :
  str_contains (String sep EmptyString) s = false -> py_split1 sep s = [s].
Proof.
  induction s as [|c s IH]; intros Hno; [reflexivity|].
  apply no_char_cons in Hno as [Hc Hno]. simpl. now rewrite Hc, IH.
Qed.

(** The artifacts a positive decision adds for a string candidate. *)
Lemma finalize_detected self st s :
  uses_text_loop (calls (_canvas self)) = true ->
  _canvas_call_stack self = Some st ->
  _canvas_image self = PStr s ->
  snd (extract_information self) = Returns tt /\
  is_fingerprinting (_canvas (finalize self)) = true /\
  call_stack (_canvas (finalize self)) = Some st /\
  files (result (finalize self)) =
    files (result self) ++
    match py_split1 "," s with
    | [info_part; data_part] =>
        if str_contains "base64" info_part then
          match b64decode data_part with
          | Some (b :: content) => [("fingerprinting_canvas", b :: content)]
          | _ => []
          end
        else []
    | _ => []
    end.
Proof.
  intros Hu Hst Hs.
  unfold finalize, extract_information. py_unfold. simpl.
  rewrite Hu, Hst. simpl. rewrite Hs.
  py_cases; simpl; rewrite ?app_nil_r; repeat split; reflexivity.
Qed.

(** C3 (amended). Canvas evidence decoding: on a positive canvas decision
    with a string as the most recent export candidate, finalization returns
    without an exception and the verdict is true in every case.  If the
    string has a comma, the part before the first comma contains [base64]
    and the part after it base64-decodes to at least one byte, the decoded
    bytes are added as the artifact [fingerprinting_canvas]; if the string
    has no comma, or the header lacks [base64], or the payload does not
    decode, or it decodes to no bytes, no artifact is added. *)
Theorem canvas_evidence self st s :
  uses_text_loop (calls (_canvas self)) = true ->
  _canvas_call_stack self = Some st ->
  _canvas_image self = PStr s ->
  snd (extract_information self) = Returns tt /\
  is_fingerprinting (_canvas (finalize self)) = true /\
  (forall info_part data_part content,
     py_split1 "," s = [info_part; data_part] ->
     str_contains "base64" info_part = true ->
     b64decode data_part = Some content -> content <> [] ->
     files (result (finalize self)) =
       files (result self) ++ [("fingerprinting_canvas", content)]) /\
  (str_contains "," s = false ->
     files (result (finalize self)) = files (result self)) /\
  (forall info_part data_part,
     py_split1 "," s = [info_part; data_part] ->
     str_contains "base64" info_part = false \/
     b64decode data_part = None \/ b64decode data_part = Some [] ->
     files (result (finalize self)) = files (result self)).
Proof.
  intros Hu Hst Hs.
  destruct (finalize_detected self st s Hu Hst Hs) as (Hret & Hfp & _ & Hfiles).
  split; [exact Hret|]. split; [exact Hfp|]. rewrite Hfiles.
  split; [|split].
  - intros info_part data_part content -> -> -> Hne.
    destruct content; [done|reflexivity].
  - intros Hno. rewrite (py_split1_whole "," s Hno). apply app_nil_r.
  - intros info_part data_part -> [->| [->| ->]]; rewrite ?app_nil_r; try done.
    all: destruct (str_contains "base64" info_part); apply app_nil_r.
Qed.

(** C10. Empty payload: when canvas fingerprinting is detected and the most
    recent export candidate is a header containing [base64], a comma and
    nothing after it, the payload decodes to zero bytes, no artifact is
    added, finalization returns and the verdict is true. *)
Theorem empty_payload_no_artifact self st info_part :
  uses_text_loop (calls (_canvas self)) = true ->
  _canvas_call_stack self = Some st ->
  _canvas_image self = PStr (info_part ++ ",") ->
  str_contains "," info_part = false ->
  str_contains "base64" info_part = true ->
  b64decode "" = Some [] /\
  snd (extract_information self) = Returns tt /\
  is_fingerprinting (_canvas (finalize self)) = true /\
  files (result (finalize self)) = files (result self).
Proof.
  intros Hu Hst Hs Hno Hb64.
  destruct (finalize_detected self st _ Hu Hst Hs) as (Hret & Hfp & _ & Hfiles).
  split; [reflexivity|]. split; [exact Hret|]. split; [exact Hfp|].
  rewrite Hfiles, (py_split1_cut "," info_part "" Hno), Hb64.
  apply app_nil_r.
Qed.

(** ** Deduplication *)

Section AddOnce.
Context {R : Type} (same : R -> R -> bool).
Hypothesis same_refl : forall x, same x x = true.
Hypothesis same_sym : forall x y, same x y = same y x.
Hypothesis same_trans :
  forall x y z, same x y = true -> same y z = true -> same x z = true.

Lemma count_eq_app x (l l' : list R) :
  count_eq same x (l ++ l') = (count_eq same x l + count_eq same x l')%nat.
Proof. unfold count_eq. now rewrite filter_app, length_app. Qed.

Lemma count_eq_one x y :
  count_eq same x [y] = if same x y then 1%nat else 0%nat.
Proof.
  unfold count_eq. rewrite filter_cons, filter_nil.
  destruct (same x y); [rewrite decide_True|rewrite decide_False]; done.
Qed.

Lemma dict_in_count x (l : list R) :
  dict_in same x l = false <-> count_eq same x l = 0%nat.
Proof.
  unfold dict_in. induction l as [|y l IH]; simpl; [done|].
  change (y :: l) with ([y] ++ l). rewrite count_eq_app, count_eq_one.
  destruct (same x y); simpl; [split; [done|lia]|exact IH].
Qed.

Lemma no_repeat_nil : no_repeat same [].
Proof. intros x. unfold count_eq. simpl. lia. Qed.

Lemma count_eq_congr x y (l : list R) :
  same x y = true -> count_eq same x l = count_eq same y l.
Proof.
  intros Hxy. unfold count_eq. f_equal. apply list_filter_iff. intros z.
  split; intros Hz.
  - apply (same_trans y x z); [now rewrite same_sym|done].
  - apply (same_trans x y z); done.
Qed.

Lemma no_repeat_add_once d (l : list R) :
  no_repeat same l -> no_repeat same (add_once same d l).
Proof.
  intros Hl x. unfold add_once. destruct (dict_in same d l) eqn:E; [apply Hl|].
  rewrite count_eq_app, count_eq_one. destruct (same x d) eqn:Exd.
  - rewrite (count_eq_congr x d l Exd). apply dict_in_count in E. lia.
  - specialize (Hl x). lia.
Qed.

Lemma count_eq_add_once d (l : list R) :
  no_repeat same l -> count_eq same d (add_once same d l) = 1%nat.
Proof.
  intros Hl. unfold add_once. destruct (dict_in same d l) eqn:E.
  - specialize (Hl d). destruct (count_eq same d l) as [|[|n]] eqn:C; [|done|lia].
    apply dict_in_count in C. congruence.
  - apply dict_in_count in E.
    rewrite count_eq_app, count_eq_one, same_refl, E. done.
Qed.

End AddOnce.

Lemma dict_in_MiscCall (c : calldict) (l : list calldict) :
  dict_in miscdict_eq (MiscCall c) (MiscCall <$> l) = dict_in calldict_eq c l.
Proof.
  unfold dict_in. induction l as [|c' l IH]; simpl; [reflexivity|].
  f_equal. exact IH.
Qed.

Lemma add_once_MiscCall (c : calldict) (l : list calldict) :
  MiscCall <$> add_once calldict_eq c l =
  add_once miscdict_eq (MiscCall c) (MiscCall <$> l).
Proof.
  unfold add_once. rewrite dict_in_MiscCall.
  destruct (dict_in calldict_eq c l); [reflexivity|].
  now rewrite fmap_app.
Qed.

Lemma deliver_stored cat self e :
  stored cat (deliver self e) =
  match entry_of cat e with
  | Some d => add_once miscdict_eq d (stored cat self)
  | None => stored cat self
  end.
Proof.
  destruct cat; simpl.
  - rewrite deliver_audio_calls. destruct (audio_record e); simpl;
      [apply add_once_MiscCall|reflexivity].
  - rewrite deliver_webgl_calls. destruct (webgl_record e); simpl;
      [apply add_once_MiscCall|reflexivity].
  - apply deliver_misc_calls.
Qed.

Lemma deliver_no_repeat cat self e :
  no_repeat miscdict_eq (stored cat self) ->
  no_repeat miscdict_eq (stored cat (deliver self e)).
Proof.
  intros Hl. rewrite deliver_stored. destruct (entry_of cat e); [|exact Hl].
  now apply (no_repeat_add_once miscdict_eq miscdict_eq_sym miscdict_eq_trans).
Qed.

Lemma observe_no_repeat cat evs self :
  no_repeat miscdict_eq (stored cat self) ->
  no_repeat miscdict_eq (stored cat (observe evs self)).
Proof.
  intros Hl. induction evs as [|e evs IH] using rev_ind; [exact Hl|].
  rewrite observe_snoc. now apply deliver_no_repeat.
Qed.

Lemma deliver_times_no_repeat cat n e self :
  no_repeat miscdict_eq (stored cat self) ->
  no_repeat miscdict_eq (stored cat (deliver_times n e self)).
Proof.
  intros Hl. induction n as [|n IH]; [exact Hl|].
  simpl. now apply deliver_no_repeat.
Qed.

Lemma init_no_repeat cat r : no_repeat miscdict_eq (stored cat (init r)).
Proof. destruct cat; apply no_repeat_nil. Qed.

(** C6 (amended). Dedup idempotence for audio, webgl and misc.  A new entry
    is appended only if the list has no equal one, equality being Python's
    [==]; delivering the same message any number of times, at least once,
    after any events leaves exactly one entry equal to its own in the list;
    and delivering to a fresh extractor two calls with the same method whose
    arguments are unequal under [==] leaves the two entries, in order. *)
Theorem dedup_idempotence (cat : dedup_category) :
  (forall self e,
     stored cat (deliver self e) =
     match entry_of cat e with
     | Some d => add_once miscdict_eq d (stored cat self)
     | None => stored cat self
     end) /\
  (forall r evs e d n,
     entry_of cat e = Some d -> (1 <= n)%nat ->
     count_eq miscdict_eq d
       (stored cat (deliver_times n e (observe evs (init r)))) = 1%nat) /\
  (forall r e1 e2 m a1 a2,
     entry_of cat e1 = Some (MiscCall {| method := m; arguments := a1 |}) ->
     entry_of cat e2 = Some (MiscCall {| method := m; arguments := a2 |}) ->
     py_eq a1 a2 = false ->
     stored cat (observe [e1; e2] (init r)) =
       [MiscCall {| method := m; arguments := a1 |};
        MiscCall {| method := m; arguments := a2 |}]).
Proof.
  split; [apply deliver_stored|]. split.
  - intros r evs e d [|n] Hd Hn; [lia|]. simpl.
    rewrite deliver_stored, Hd.
    apply (count_eq_add_once miscdict_eq miscdict_eq_refl).
    apply deliver_times_no_repeat, observe_no_repeat, init_no_repeat.
  - intros r e1 e2 m a1 a2 H1 H2 Hne. simpl.
    rewrite !deliver_stored, H1, H2.
    assert (stored cat (init r) = []) as -> by (now destruct cat).
    unfold add_once, dict_in. simpl. unfold calldict_eq. simpl.
    rewrite (py_eq_sym a2 a1), Hne, andb_false_r. reflexivity.
Qed.

(** ** The instrumentation wrapper *)

(** What a non-strict function finds in [this]: an object given as the
    receiver is found as it is, and what is found is always an object, so
    that handing it on through a second wrapper changes nothing more. *)
Lemma this_binding_object (v : JS.value) :
  JS.is_object v = true -> JS.this_binding v = v.
Proof. now destruct v. Qed.

Lemma this_binding_is_object (v : JS.value) :
  JS.is_object (JS.this_binding v) = true.
Proof. now destruct v. Qed.

Lemma this_binding_idempotent (v : JS.value) :
  JS.this_binding (JS.this_binding v) = JS.this_binding v.
Proof. apply this_binding_object, this_binding_is_object. Qed.

(** The wrapper hands its own [this] and arguments to the original, and a
    value the original throws passes through it, with no log event. *)
Lemma instrumentFunction_throws {page} (func : JS.function page)
    name log_type this arguments w w' e :
  func (JS.this_binding this) arguments w = (w', JS.Throw e) ->
  JS.instrumentFunction func name log_type this arguments w = (w', JS.Throw e).
Proof. intros H. unfold JS.instrumentFunction. simpl. now rewrite H. Qed.

(** C1. Instrumentation transparency for functions, as far as the code has
    it: a call of the wrapper calls the original once, with the arguments of
    the call and with the receiver as the wrapper, a non-strict function,
    finds it in [this] (an object as it is; the global object for [null] and
    [undefined]; a primitive wrapped), and then logs name, arguments and
    return value on the channel; but the wrapper itself completes with
    [undefined] whatever the original returned, because its body has no
    [return]. *)
Theorem instrumentFunction_returns_undefined {page} (func : JS.function page)
    name log_type this arguments w w' retval :
  func (JS.this_binding this) arguments w = (w', JS.Normal retval) ->
  JS.instrumentFunction func name log_type this arguments w =
    (JS.log log_type
       (JS.Object [("type", JS.Str "function"); ("name", JS.Str name);
                   ("arguments", JS.Array arguments); ("retval", retval)]) w',
     JS.Normal JS.Undefined).
Proof. intros H. unfold JS.instrumentFunction. simpl. now rewrite H. Qed.

(** The wrapped [toDataURL] returns [undefined] where the original returns
    the data URL. *)
Lemma instrumentFunction_returns_undefined_witness :
  let w := {| JS.page_state := 0%nat; JS.emitted := [] |} in
  snd (JS.toDataURL JS.Null [] w) =
    JS.Normal (JS.Str "data:image/png;base64,aGVsbG8=") /\
  snd (JS.instrumentFunction JS.toDataURL "HTMLCanvasElement.toDataURL"
         "fingerprinting:canvas" JS.Null [] w) = JS.Normal JS.Undefined.
Proof.
  split; [reflexivity|].
  rewrite (instrumentFunction_returns_undefined JS.toDataURL
             "HTMLCanvasElement.toDataURL" "fingerprinting:canvas" JS.Null []
             {| JS.page_state := 0%nat; JS.emitted := [] |}
             {| JS.page_state := 1%nat; JS.emitted := [] |}
             (JS.Str "data:image/png;base64,aGVsbG8=") eq_refl).
  reflexivity.
Defined.

(** ** The properties at the examples of the specification *)

(** An audio event goes to the audio handler; an event on an unknown channel
    changes nothing. *)
Lemma receive_log_routing_witness :
  let m := ev_message (createAnalyser []) in
  receive_log "fingerprinting:audio" m [] (init empty_result) =
    _receive_audio_log m [] (init empty_result) /\
  receive_log "console" m [] (init empty_result) =
    (init empty_result, Returns tt).
Proof.
  split.
  - apply (receive_log_routing "fingerprinting:audio"). reflexivity.
  - apply (receive_log_routing "console"); discriminate.
Defined.

(** [toDataURL] alone and [fillText] alone give a false verdict; [fillText]
    followed by [toDataURL] gives a true one. *)
Lemma canvas_rule_witness :
  is_fingerprinting
    (_canvas (scan empty_result [toDataURL "data:image/png;base64,aGVsbG8="]))
    = false /\
  is_fingerprinting (_canvas (scan empty_result [fillText])) = false /\
  is_fingerprinting
    (_canvas (scan empty_result
                [fillText; toDataURL "data:image/png;base64,aGVsbG8="]))
    = true.
Proof.
  split; [|split].
  - destruct (canvas_rule empty_result
                [toDataURL "data:image/png;base64,aGVsbG8="])
      as (res & Hres & _ & _ & Ha & _).
    injection Hres as <-. apply Ha.
    intros c [<-|[]] [Ht|Ht]; discriminate Ht.
  - destruct (canvas_rule empty_result [fillText])
      as (res & Hres & _ & _ & _ & Hb).
    injection Hres as <-. apply Hb.
    intros e [<-|[]]. reflexivity.
  - destruct (canvas_rule empty_result
                [fillText; toDataURL "data:image/png;base64,aGVsbG8="])
      as (res & Hres & Hrule & _).
    injection Hres as <-. apply Hrule. split.
    + eexists. split; [left; reflexivity|]. left. reflexivity.
    + eexists. split; [right; left; reflexivity|]. reflexivity.
Defined.

(** [fillText] followed by [toDataURL("data:image/png;base64,aGVsbG8=")]:
    the artifact is the five bytes of [hello]. *)
Lemma canvas_evidence_witness :
  let self := observe [fillText; toDataURL "data:image/png;base64,aGVsbG8="]
                      (init empty_result) in
  (uses_text_loop (calls (_canvas self)) = true /\
   _canvas_call_stack self = Some [PStr "export"] /\
   _canvas_image self = PStr "data:image/png;base64,aGVsbG8=") /\
  files (result (finalize self)) =
    [("fingerprinting_canvas", list_byte_of_string "hello")].
Proof.
  split; [repeat split|].
  destruct (canvas_evidence
              (observe [fillText; toDataURL "data:image/png;base64,aGVsbG8="]
                       (init empty_result))
              [PStr "export"] "data:image/png;base64,aGVsbG8="
              eq_refl eq_refl eq_refl) as (_ & _ & Hfiles & _).
  apply (Hfiles "data:image/png;base64" "aGVsbG8="
                (list_byte_of_string "hello")); [reflexivity..|discriminate].
Defined.

(** The claim without the amendment fails on an empty payload: the string
    has a comma, its header contains [base64] and the payload decodes, to
    zero bytes, yet the positive decision adds no artifact. *)
Lemma canvas_evidence_counterexample :
  let url := "data:image/jpeg;base64," in
  let s := scan empty_result [fillText; toDataURL url] in
  py_split1 "," url = ["data:image/jpeg;base64"; ""] /\
  str_contains "base64" "data:image/jpeg;base64" = true /\
  b64decode "" = Some [] /\
  is_fingerprinting (_canvas s) = true /\
  files (result s) = [].
Proof. repeat split. Qed.

Lemma empty_payload_no_artifact_witness :
  let self := observe [fillText; toDataURL "data:image/png;base64,"]
                      (init empty_result) in
  (uses_text_loop (calls (_canvas self)) = true /\
   _canvas_call_stack self = Some [PStr "export"] /\
   _canvas_image self = PStr ("data:image/png;base64" ++ ",") /\
   str_contains "," "data:image/png;base64" = false /\
   str_contains "base64" "data:image/png;base64" = true) /\
  is_fingerprinting (_canvas (finalize self)) = true /\
  files (result (finalize self)) = [].
Proof.
  split; [repeat split|].
  destruct (empty_payload_no_artifact
              (observe [fillText; toDataURL "data:image/png;base64,"]
                       (init empty_result))
              [PStr "export"] "data:image/png;base64"
              eq_refl eq_refl eq_refl eq_refl eq_refl)
    as (_ & _ & Hfp & Hfiles).
  split; [exact Hfp|exact Hfiles].
Defined.



(** The same audio call three times after another event leaves one entry;
    two calls with the arguments [1] and [2] leave two. *)
Lemma dedup_idempotence_witness :
  count_eq miscdict_eq
    (MiscCall {| method := PStr "AudioContext.createAnalyser";
                 arguments := PList [PInt 1] |})
    (stored Audio (deliver_times 3 (createAnalyser [PInt 1])
                     (observe [fillText] (init empty_result)))) = 1%nat /\
  stored Audio (observe [createAnalyser [PInt 1]; createAnalyser [PInt 2]]
                        (init empty_result)) =
    [MiscCall {| method := PStr "AudioContext.createAnalyser";
                 arguments := PList [PInt 1] |};
     MiscCall {| method := PStr "AudioContext.createAnalyser";
                 arguments := PList [PInt 2] |}].
Proof.
  destruct (dedup_idempotence Audio) as (_ & Hsame & Hdiff).
  split.
  - apply (Hsame empty_result [fillText] (createAnalyser [PInt 1])).
    + reflexivity.
    + repeat constructor.
  - apply (Hdiff empty_result (createAnalyser [PInt 1])
                 (createAnalyser [PInt 2])); reflexivity.
Defined.

(** The claim without the amendment fails on the arguments [1] and [True]:
    they are different argument sequences, and Python's [==] holds them
    equal, so the second call leaves no second record. *)
Lemma dedup_counterexample :
  let e1 := createAnalyser [PInt 1] in
  let e2 := createAnalyser [PBool true] in
  ev_message e1 !! "name" = ev_message e2 !! "name" /\
  ev_message e1 !! "arguments" = Some (PList [PInt 1]) /\
  ev_message e2 !! "arguments" = Some (PList [PBool true]) /\
  PList [PInt 1] <> PList [PBool true] /\
  calls (_audio (observe [e1; e2] (init empty_result))) =
    [{| method := PStr "AudioContext.createAnalyser";
        arguments := PList [PInt 1] |}].
Proof. repeat split. discriminate. Qed.

(** [fillText], [toDataURL], [fillText] again: three records in that order. *)
Lemma canvas_calls_in_order_witness :
  let evs := [fillText; toDataURL "data:image/png;base64,aGVsbG8="; fillText] in
  Forall (fun e => ev_log_type e = "fingerprinting:canvas" /\
                   is_Some (ev_message e !! "name") /\
                   is_Some (ev_message e !! "arguments")) evs /\
  Forall2 (fun e c => ev_message e !! "name" = Some (method c) /\
                      ev_message e !! "arguments" = Some (arguments c))
          evs (calls (_canvas (observe evs (init empty_result)))) /\
  length (calls (_canvas (observe evs (init empty_result)))) = 3%nat.
Proof.
  assert (Forall (fun e => ev_log_type e = "fingerprinting:canvas" /\
                   is_Some (ev_message e !! "name") /\
                   is_Some (ev_message e !! "arguments"))
            [fillText; toDataURL "data:image/png;base64,aGVsbG8="; fillText])
    as Hwf.
  { repeat constructor; vm_compute; eauto. }
  split; [exact Hwf|]. split; [|reflexivity].
  apply (canvas_calls_in_order empty_result _ Hwf).
Defined.

(** Two exports: the candidate and the stack are those of the second. *)
Lemma most_recent_export_wins_witness :
  let evs := [toDataURL "data:,first"; fillText; toDataURL "data:,second"] in
  _canvas_image (observe evs (init empty_result)) = PStr "data:,second" /\
  _canvas_call_stack (observe evs (init empty_result)) = Some [PStr "export"] /\
  _canvas_image (deliver (observe [toDataURL "data:,first"] (init empty_result))
                         (toDataURL "data:,second")) = PStr "data:,second".
Proof.
  destruct most_recent_export_wins as (Hstep & Hrun).
  split; [|split].
  - specialize (Hrun empty_result
      [toDataURL "data:,first"; fillText; toDataURL "data:,second"]).
    simpl in Hrun. destruct Hrun as [Hi _].
    + repeat constructor; intros _; vm_compute; eauto.
    + exact (f_equal (default PNone) Hi).
  - specialize (Hrun empty_result
      [toDataURL "data:,first"; fillText; toDataURL "data:,second"]).
    simpl in Hrun. apply Hrun.
    repeat constructor; intros _; vm_compute; eauto.
  - apply (Hstep _ (toDataURL "data:,second") (PList [])); reflexivity.
Defined.

(** * Further properties of the extractor *)

(** ** What the observation phase never does *)

(** X1. The handlers never set a verdict: whatever events are received and
    whatever the extractor was before, the observation phase leaves the
    result, the four [is_fingerprinting] flags and the four attached call
    stacks as they were; only [extract_information] writes them. *)
Theorem observation_sets_no_verdict (evs : list log_event) self :
  result (observe evs self) = result self /\
  is_fingerprinting (_canvas (observe evs self)) = is_fingerprinting (_canvas self) /\
  is_fingerprinting (_audio (observe evs self)) = is_fingerprinting (_audio self) /\
  is_fingerprinting (_webgl (observe evs self)) = is_fingerprinting (_webgl self) /\
  is_fingerprinting (_misc (observe evs self)) = is_fingerprinting (_misc self) /\
  call_stack (_canvas (observe evs self)) = call_stack (_canvas self) /\
  call_stack (_audio (observe evs self)) = call_stack (_audio self) /\
  call_stack (_webgl (observe evs self)) = call_stack (_webgl self) /\
  call_stack (_misc (observe evs self)) = call_stack (_misc self).
Proof.
  pose proof (observe_keeps evs self) as K. cbv zeta in K.
  repeat match goal with H : _ /\ _ |- _ => destruct H end.
  repeat split; assumption.
Qed.

(** X2. When [receive_log] raises, the exception is a [KeyError] for one of
    the keys the handlers read or the [UnboundLocalError] of the misc
    handler, and the extractor is exactly as before the call, except for the
    canvas handler's [KeyError] on ['retval'], which comes after its
    updates. *)
Theorem receive_log_failure_atomic log_type message call_stack self exc :
  snd (receive_log log_type message call_stack self) = Raises exc ->
  In exc [KeyError "name"; KeyError "arguments"; KeyError "value";
          KeyError "retval"; UnboundLocalError "calldict"] /\
  (fst (receive_log log_type message call_stack self) = self \/
   log_type = "fingerprinting:canvas" /\ exc = KeyError "retval").
Proof.
  rewrite receive_log_run.
  repeat match goal with
  | |- context [String.eqb ?a ?b] =>
      let E := fresh "E" in
      destruct (String.eqb a b) eqn:E;
      [apply String.eqb_eq in E|]
  end;
  rewrite ?_receive_canvas_log_run, ?_receive_audio_log_run,
    ?_receive_webgl_log_run, ?_receive_misc_log_run; cbv zeta.
  all: py_cases; intros [= <-]; simpl; intuition auto.
Qed.

(** X3. An export message without ['retval']: the canvas handler raises
    [KeyError] only after it has appended the record and overwritten the
    canvas call stack; the image candidate stays the previous one, so that
    stack and candidate may then come from different calls. *)
Theorem export_without_retval message call_stack self args :
  message !! "name" = Some (PStr "HTMLCanvasElement.toDataURL") ->
  message !! "arguments" = Some args ->
  message !! "retval" = None ->
  let s := fst (_receive_canvas_log message call_stack self) in
  snd (_receive_canvas_log message call_stack self) = Raises (KeyError "retval") /\
  calls (_canvas s) =
    calls (_canvas self) ++
    [{| method := PStr "HTMLCanvasElement.toDataURL"; arguments := args |}] /\
  _canvas_call_stack s = Some (drop 1 call_stack) /\
  _canvas_image s = _canvas_image self.
Proof.
  intros Hn Ha Hr. cbv zeta.
  rewrite _receive_canvas_log_run, Hn, Ha, Hr. simpl. repeat split.
Qed.

(** X4. A positive canvas decision with a candidate that is not a string (it
    is still [None], or the return value was not a string):
    [extract_information] raises [AttributeError], after it has assigned the
    result key, set the verdict to true and attached the stack; no artifact
    is added. *)
Theorem finalize_non_string_candidate self st :
  uses_text_loop (calls (_canvas self)) = true ->
  _canvas_call_stack self = Some st ->
  (forall s, _canvas_image self <> PStr s) ->
  snd (extract_information self) = Raises (AttributeError "split") /\
  is_fingerprinting (_canvas (finalize self)) = true /\
  call_stack (_canvas (finalize self)) = Some st /\
  files (result (finalize self)) = files (result self) /\
  fingerprinting_assigned (result (finalize self)) = true.
Proof.
  intros Hu Hst Hs.
  unfold finalize, extract_information. py_unfold. simpl.
  rewrite Hu, Hst. simpl.
  destruct (_canvas_image self) as [| | | |s| |] eqn:E; simpl;
    try (repeat split; reflexivity).
  now destruct (Hs s).
Qed.

Lemma finalize_non_string_candidate_witness :
  let self := observe [fillText; export_without_retval_event]
                      (init empty_result) in
  snd (extract_information self) = Raises (AttributeError "split") /\
  is_fingerprinting (_canvas (finalize self)) = true.
Proof.
  cbv zeta.
  match goal with |- context [extract_information ?s] =>
    destruct (finalize_non_string_candidate s [PStr "export"])
      as (Hraise & Hfp & _)
  end; [reflexivity|reflexivity|discriminate|].
  split; [exact Hraise|exact Hfp].
Defined.

(** X5. The four lists only grow: the list of each category before any
    sequence of events is a prefix of the list after it, and finalization
    leaves the four lists unchanged. *)
Theorem calls_only_grow (evs : list log_event) self :
  calls (_canvas self) `prefix_of` calls (_canvas (observe evs self)) /\
  calls (_audio self) `prefix_of` calls (_audio (observe evs self)) /\
  calls (_webgl self) `prefix_of` calls (_webgl (observe evs self)) /\
  calls (_misc self) `prefix_of` calls (_misc (observe evs self)) /\
  calls (_canvas (finalize self)) = calls (_canvas self) /\
  calls (_audio (finalize self)) = calls (_audio self) /\
  calls (_webgl (finalize self)) = calls (_webgl self) /\
  calls (_misc (finalize self)) = calls (_misc self).
Proof.
  assert (forall {R} (same : R -> R -> bool) d (l : list R),
            l `prefix_of` add_once same d l) as Hadd.
  { intros R same d l. unfold add_once. destruct (dict_in same d l);
      [reflexivity|apply prefix_app_r; reflexivity]. }
  repeat split; try apply finalize_calls.
  - rewrite observe_canvas_calls. now apply prefix_app_r.
  - induction evs as [|e evs IH] using rev_ind; [reflexivity|].
    rewrite observe_snoc, deliver_audio_calls.
    destruct (audio_record e); [|exact IH]. etrans; [exact IH|apply Hadd].
  - induction evs as [|e evs IH] using rev_ind; [reflexivity|].
    rewrite observe_snoc, deliver_webgl_calls.
    destruct (webgl_record e); [|exact IH]. etrans; [exact IH|apply Hadd].
  - induction evs as [|e evs IH] using rev_ind; [reflexivity|].
    rewrite observe_snoc, deliver_misc_calls.
    destruct (misc_entry e); [|exact IH]. etrans; [exact IH|apply Hadd].
Qed.

(** ** Which events decide the canvas outcome *)

Lemma category_eta {R} (c c' : category R) :
  calls c = calls c' -> is_fingerprinting c = is_fingerprinting c' ->
  call_stack c = call_stack c' -> c = c'.
Proof. destruct c, c'. simpl. congruence. Qed.

Lemma deliver_canvas_part self self' e :
  _canvas self = _canvas self' ->
  _canvas_call_stack self = _canvas_call_stack self' ->
  _canvas_image self = _canvas_image self' ->
  _canvas (deliver self e) = _canvas (deliver self' e) /\
  _canvas_call_stack (deliver self e) = _canvas_call_stack (deliver self' e) /\
  _canvas_image (deliver self e) = _canvas_image (deliver self' e).
Proof.
  intros Hc Hs Hi.
  destruct (deliver_keeps self e) as (F1 & _ & _ & _ & S1 & _).
  destruct (deliver_keeps self' e) as (F2 & _ & _ & _ & S2 & _).
  split; [|split].
  - apply category_eta.
    + now rewrite !deliver_canvas_calls, Hc.
    + now rewrite F1, F2, Hc.
    + now rewrite S1, S2, Hc.
  - now rewrite !deliver_canvas_call_stack, Hs.
  - now rewrite !deliver_canvas_image, Hi.
Qed.

Lemma deliver_other_channel self e :
  on_channel "fingerprinting:canvas" e = false ->
  _canvas (deliver self e) = _canvas self /\
  _canvas_call_stack (deliver self e) = _canvas_call_stack self /\
  _canvas_image (deliver self e) = _canvas_image self.
Proof.
  intros Hch.
  destruct (deliver_keeps self e) as (F1 & _ & _ & _ & S1 & _).
  assert (canvas_record e = None) as Hrec
    by (unfold canvas_record; now rewrite Hch).
  assert (is_export e = false) as Hx by (unfold is_export; now rewrite Hrec).
  split; [|split].
  - apply category_eta; [|exact F1|exact S1].
    rewrite deliver_canvas_calls, Hrec. apply app_nil_r.
  - now rewrite deliver_canvas_call_stack, Hx.
  - now rewrite deliver_canvas_image, Hx.
Qed.

Lemma observe_canvas_part evs : forall self self',
  _canvas self = _canvas self' ->
  _canvas_call_stack self = _canvas_call_stack self' ->
  _canvas_image self = _canvas_image self' ->
  let s := observe evs self in
  let s' := observe
              (filter (fun e => on_channel "fingerprinting:canvas" e = true) evs)
              self' in
  _canvas s = _canvas s' /\ _canvas_call_stack s = _canvas_call_stack s' /\
  _canvas_image s = _canvas_image s'.
Proof.
  induction evs as [|e evs IH]; intros self self' Hc Hs Hi; [simpl; auto|].
  rewrite filter_cons. simpl.
  destruct (on_channel "fingerprinting:canvas" e) eqn:Hch.
  - rewrite decide_True by done. simpl.
    destruct (deliver_canvas_part self self' e Hc Hs Hi) as (? & ? & ?).
    now apply IH.
  - rewrite decide_False by done.
    destruct (deliver_other_channel self e Hch) as (? & ? & ?).
    apply IH; congruence.
Qed.

(** Finalization reads the canvas fields and the result, nothing else, to
    set the canvas entry, the result and its own outcome. *)
Lemma finalize_canvas_part self self' :
  _canvas self = _canvas self' ->
  _canvas_call_stack self = _canvas_call_stack self' ->
  _canvas_image self = _canvas_image self' ->
  result self = result self' ->
  _canvas (finalize self) = _canvas (finalize self') /\
  result (finalize self) = result (finalize self') /\
  snd (extract_information self) = snd (extract_information self').
Proof.
  destruct self, self'. simpl. intros -> -> -> ->.
  unfold finalize, extract_information. py_unfold. simpl.
  py_cases; repeat split; reflexivity.
Qed.

(** X6. Events of the other channels do not bear on the canvas outcome: a
    scan of all the events and a scan of only those of the canvas channel
    end with the same canvas entry, the same result (key and artifacts) and
    the same outcome of [extract_information]. *)
Theorem canvas_outcome_ignores_other_channels (r : scan_result)
    (evs : list log_event) :
  let canvas_evs :=
    filter (fun e => on_channel "fingerprinting:canvas" e = true) evs in
  _canvas (scan r evs) = _canvas (scan r canvas_evs) /\
  result (scan r evs) = result (scan r canvas_evs) /\
  snd (extract_information (observe evs (init r))) =
  snd (extract_information (observe canvas_evs (init r))).
Proof.
  cbv zeta. unfold scan.
  destruct (observe_canvas_part evs (init r) (init r) eq_refl eq_refl eq_refl)
    as (Hc & Hs & Hi).
  apply finalize_canvas_part; try assumption.
  destruct (observe_keeps evs (init r))
    as (_ & _ & _ & _ & _ & _ & _ & _ & _ & _ & _ & ->).
  destruct (observe_keeps
              (filter (fun e => on_channel "fingerprinting:canvas" e = true) evs)
              (init r))
    as (_ & _ & _ & _ & _ & _ & _ & _ & _ & _ & _ & ->).
  reflexivity.
Qed.

Lemma canvas_verdict_events (r : scan_result) (evs : list log_event) :
  is_fingerprinting (_canvas (scan r evs)) = true <->
  (exists e c, In e evs /\ canvas_record e = Some c /\ text_call c) /\
  (exists e, In e evs /\ is_export e = true).
Proof.
  unfold scan. rewrite finalize_canvas_verdict.
  destruct (observe_keeps evs (init r)) as (-> & _). simpl.
  rewrite andb_true_iff, uses_text_loop_spec, observe_canvas_calls. simpl.
  rewrite <- (export_seen evs r).
  assert ((exists c, In c (omap canvas_record evs) /\ text_call c) <->
          (exists e c, In e evs /\ canvas_record e = Some c /\ text_call c))
    as ->.
  { split.
    - intros (c & Hc & Ht). apply list_elem_of_In, list_elem_of_omap in Hc
        as (e & He & Hrec). apply list_elem_of_In in He. eauto.
    - intros (e & c & He & Hrec & Ht). exists c. split; [|done].
      apply list_elem_of_In, list_elem_of_omap. exists e.
      split; [now apply list_elem_of_In|done]. }
  destruct (_canvas_call_stack (observe evs (init r))); split;
    intros [? ?]; split; congruence.
Qed.

(** X7. The canvas verdict does not depend on the order of the events: two
    scans of the same events in different orders have the same
    [is_fingerprinting]; an export that comes before the first text draw
    counts as much as one that comes after. *)
Theorem canvas_verdict_order_insensitive (r : scan_result)
    (evs evs' : list log_event) :
  Permutation evs evs' ->
  is_fingerprinting (_canvas (scan r evs)) =
  is_fingerprinting (_canvas (scan r evs')).
Proof.
  intros Hp.
  assert (forall a b, Permutation a b ->
            is_fingerprinting (_canvas (scan r a)) = true ->
            is_fingerprinting (_canvas (scan r b)) = true) as Hmono.
  { intros a b Hab [(e & c & He & Hrec & Ht) (x & Hx & Hex)]%canvas_verdict_events.
    apply canvas_verdict_events. split.
    - exists e, c. split; [|done]. eapply Permutation_in; eauto.
    - exists x. split; [|done]. eapply Permutation_in; eauto. }
  destruct (is_fingerprinting (_canvas (scan r evs))) eqn:E1.
  - symmetry. now apply (Hmono evs evs').
  - destruct (is_fingerprinting (_canvas (scan r evs'))) eqn:E2; [|reflexivity].
    rewrite <- E1. apply (Hmono evs' evs); [|exact E2].
    now symmetry.
Qed.

Lemma canvas_verdict_order_insensitive_witness :
  is_fingerprinting
    (_canvas (scan empty_result [toDataURL "data:,"; fillText])) = true.
Proof.
  rewrite (canvas_verdict_order_insensitive empty_result
             [toDataURL "data:,"; fillText] [fillText; toDataURL "data:,"]).
  - reflexivity.
  - apply perm_swap.
Defined.

(** ** What the deduplicated lists hold *)

Lemma dict_in_true {R} (same : R -> R -> bool) (x : R) (l : list R) :
  dict_in same x l = true <-> exists y, In y l /\ same x y = true.
Proof. unfold dict_in. apply existsb_exists. Qed.

(** X8. What the audio, webgl and misc lists hold after any events from a
    fresh extractor: every entry of the list is the entry of one of the
    events, every event that has an entry has an equal one in the list, and
    no two entries of the list are equal. *)
Theorem dedup_list_content (cat : dedup_category) (r : scan_result)
    (evs : list log_event) :
  let l := stored cat (observe evs (init r)) in
  (forall d, In d l -> exists e, In e evs /\ entry_of cat e = Some d) /\
  (forall e d, In e evs -> entry_of cat e = Some d ->
     exists d', In d' l /\ miscdict_eq d d' = true) /\
  no_repeat miscdict_eq l.
Proof.
  cbv zeta. split; [|split].
  - induction evs as [|e evs IH] using rev_ind.
    + intros d Hd. destruct cat; destruct Hd.
    + intros d. rewrite observe_snoc, deliver_stored.
      assert (forall d, In d (stored cat (observe evs (init r))) ->
                exists x, In x (evs ++ [e]) /\ entry_of cat x = Some d) as IH'.
      { intros d0 Hd0. destruct (IH d0 Hd0) as (x & Hx & Hrec).
        exists x. split; [apply in_or_app; now left|done]. }
      destruct (entry_of cat e) as [d0|] eqn:E; [|apply IH'].
      unfold add_once. destruct (dict_in _ _ _); [apply IH'|].
      intros [Hd|[<-|[]]]%in_app_or; [now apply IH'|].
      exists e. split; [apply in_or_app; right; now left|done].
  - induction evs as [|e evs IH] using rev_ind; [intros ? ? []|].
    intros x d Hx Hrec. rewrite observe_snoc, deliver_stored.
    assert (forall d', In d' (stored cat (observe evs (init r))) ->
              In d' (match entry_of cat e with
                     | Some d0 => add_once miscdict_eq d0
                                    (stored cat (observe evs (init r)))
                     | None => stored cat (observe evs (init r))
                     end)) as Hkeep.
    { intros d' Hd'. destruct (entry_of cat e); [|done].
      unfold add_once. destruct (dict_in _ _ _); [done|].
      apply in_or_app. now left. }
    apply in_app_or in Hx as [Hx|[<-|[]]].
    + destruct (IH x d Hx Hrec) as (d' & Hd' & Heq). eauto.
    + rewrite Hrec. unfold add_once.
      destruct (dict_in miscdict_eq d _) eqn:E.
      * apply dict_in_true in E as (d' & Hd' & Heq). eauto.
      * exists d. split; [apply in_or_app; right; now left|].
        apply miscdict_eq_refl.
  - apply observe_no_repeat, init_no_repeat.
Qed.

(** ** How deliveries and finalizations compose *)

Lemma extractor_eta (s s' : FingerprintingExtractor) :
  _canvas s = _canvas s' -> _audio s = _audio s' -> _webgl s = _webgl s' ->
  _misc s = _misc s' ->
  _canvas_call_stack s = _canvas_call_stack s' ->
  _audio_call_stack s = _audio_call_stack s' ->
  _webgl_call_stack s = _webgl_call_stack s' ->
  _misc_call_stack s = _misc_call_stack s' ->
  _canvas_image s = _canvas_image s' -> result s = result s' -> s = s'.
Proof. destruct s, s'. simpl. congruence. Qed.

Lemma off_channel (channel : string) e1 e2 :
  ev_log_type e1 <> ev_log_type e2 ->
  on_channel channel e1 = false \/ on_channel channel e2 = false.
Proof.
  intros Hne. unfold on_channel.
  destruct (String.eqb_spec (ev_log_type e1) channel) as [H1|]; [|now left].
  destruct (String.eqb_spec (ev_log_type e2) channel) as [H2|]; [|now right].
  congruence.
Qed.

(** An event that is not of a channel leaves no trace in its category. *)
Lemma off_channel_records e :
  (on_channel "fingerprinting:canvas" e = false ->
     canvas_record e = None /\ is_export e = false) /\
  (on_channel "fingerprinting:audio" e = false -> audio_record e = None) /\
  (on_channel "fingerprinting:webgl" e = false -> webgl_record e = None) /\
  (on_channel "fingerprinting:misc" e = false -> misc_entry e = None).
Proof.
  unfold is_export, canvas_record, audio_record, webgl_record, misc_entry.
  split; [|split; [|split]]; intros ->; [split|..]; reflexivity.
Qed.

(** X9. Two events with different channel names commute: delivered in either
    order they leave the same extractor. *)
Theorem deliveries_on_different_channels_commute self e1 e2 :
  ev_log_type e1 <> ev_log_type e2 ->
  deliver (deliver self e1) e2 = deliver (deliver self e2) e1.
Proof.
  intros Hne.
  pose proof (deliver_keeps self e1) as K1.
  pose proof (deliver_keeps self e2) as K2.
  pose proof (deliver_keeps (deliver self e1) e2) as K12.
  pose proof (deliver_keeps (deliver self e2) e1) as K21.
  cbv zeta in *.
  destruct (off_channel_records e1) as (C1 & A1 & W1 & M1).
  destruct (off_channel_records e2) as (C2 & A2 & W2 & M2).
  repeat match goal with H : _ /\ _ |- _ => destruct H end.
  apply extractor_eta; try congruence.
  - apply category_eta; try congruence.
    rewrite !deliver_canvas_calls.
    destruct (off_channel "fingerprinting:canvas" e1 e2 Hne) as [Hoff|Hoff];
      [destruct (C1 Hoff) as [-> _]|destruct (C2 Hoff) as [-> _]];
      simpl; now rewrite !app_nil_r.
  - apply category_eta; try congruence.
    rewrite !deliver_audio_calls.
    destruct (off_channel "fingerprinting:audio" e1 e2 Hne) as [Hoff|Hoff];
      [rewrite (A1 Hoff)|rewrite (A2 Hoff)]; reflexivity.
  - apply category_eta; try congruence.
    rewrite !deliver_webgl_calls.
    destruct (off_channel "fingerprinting:webgl" e1 e2 Hne) as [Hoff|Hoff];
      [rewrite (W1 Hoff)|rewrite (W2 Hoff)]; reflexivity.
  - apply category_eta; try congruence.
    rewrite !deliver_misc_calls.
    destruct (off_channel "fingerprinting:misc" e1 e2 Hne) as [Hoff|Hoff];
      [rewrite (M1 Hoff)|rewrite (M2 Hoff)]; reflexivity.
  - rewrite !deliver_canvas_call_stack.
    destruct (off_channel "fingerprinting:canvas" e1 e2 Hne) as [Hoff|Hoff];
      [destruct (C1 Hoff) as [_ ->]|destruct (C2 Hoff) as [_ ->]]; reflexivity.
  - rewrite !deliver_canvas_image.
    destruct (off_channel "fingerprinting:canvas" e1 e2 Hne) as [Hoff|Hoff];
      [destruct (C1 Hoff) as [_ ->]|destruct (C2 Hoff) as [_ ->]]; reflexivity.
Qed.

Lemma deliveries_on_different_channels_commute_witness :
  deliver (deliver (init empty_result) fillText) (createAnalyser []) =
  deliver (deliver (init empty_result) (createAnalyser [])) fillText.
Proof.
  apply deliveries_on_different_channels_commute. discriminate.
Defined.

(** X10. Finalization is idempotent on the four categories: a second
    [extract_information] leaves each of them as the first one did, whatever
    the extractor was and whether the call returns or raises. *)
Theorem finalize_idempotent_on_categories self :
  _canvas (finalize (finalize self)) = _canvas (finalize self) /\
  _audio (finalize (finalize self)) = _audio (finalize self) /\
  _webgl (finalize (finalize self)) = _webgl (finalize self) /\
  _misc (finalize (finalize self)) = _misc (finalize self).
Proof.
  destruct self as [[] [] [] [] ? ? ? ? ? ?].
  unfold finalize, extract_information. py_unfold. simpl.
  py_cases; repeat split; reflexivity.
Qed.

(** * Properties of the accessor and object instrumentation *)

Section InstrumentationProperties.
Import Instrumentation.
Context {page : Type} (native : nat -> JS.function page).

Lemma find_descriptor_own (obj : object) (prop : string) (d : property) :
  own obj !! prop = Some d -> find_descriptor obj prop = Some d.
Proof. destruct obj as [props proto ext]. simpl. now intros ->. Qed.

Lemma defineProperty_own (obj obj' : object) (prop : string) (g s : func) :
  defineProperty obj prop g s = Some obj' ->
  exists e c, own obj' = <[prop := AccessorProperty (Some g) (Some s) e c]> (own obj) /\
    prototype obj' = prototype obj /\ extensible obj' = extensible obj.
Proof.
  destruct obj as [props proto ext]. simpl.
  destruct (props !! prop) as [[v wr e c|gg ss e c]|].
  - destruct c; [|done]. intros [= <-]. simpl. eauto.
  - destruct c; [|done]. intros [= <-]. simpl. eauto.
  - destruct ext; [|done]. intros [= <-]. simpl. eauto.
Qed.

Lemma instrumentProperty_defines (obj obj' : object) (name prop log_type : string)
    (d : property) :
  find_descriptor obj prop = Some d ->
  instrumentProperty obj name prop log_type = Some obj' ->
  exists e c,
    own obj' = <[prop := AccessorProperty
                   (Some (GetterWrapper (descriptor_get d) name log_type))
                   (Some (SetterWrapper (descriptor_set d) name log_type)) e c]>
                 (own obj) /\
    prototype obj' = prototype obj /\ extensible obj' = extensible obj.
Proof.
  unfold instrumentProperty. intros ->. apply defineProperty_own.
Qed.

(** X11. How [instrumentProperty] ends: with no property of that name on the
    prototype chain it returns and leaves the object as it was; when the
    object has the property itself and it is not configurable, or when the
    property is inherited and the object is not extensible,
    [Object.defineProperty] throws; in every other case the property is
    defined. *)
Theorem instrumentProperty_outcome (obj : object) (name prop log_type : string) :
  (find_descriptor obj prop = None ->
     instrumentProperty obj name prop log_type = Some obj) /\
  (forall d, own obj !! prop = Some d -> configurable d = false ->
     instrumentProperty obj name prop log_type = None) /\
  (own obj !! prop = None -> is_Some (find_descriptor obj prop) ->
   extensible obj = false ->
     instrumentProperty obj name prop log_type = None) /\
  (forall d, find_descriptor obj prop = Some d ->
     (forall d', own obj !! prop = Some d' -> configurable d' = true) ->
     (own obj !! prop = None -> extensible obj = true) ->
     is_Some (instrumentProperty obj name prop log_type)).
Proof.
  unfold instrumentProperty. split; [|split; [|split]].
  - now intros ->.
  - intros d Hd Hc. rewrite (find_descriptor_own obj prop d Hd).
    destruct obj as [props proto ext]. simpl in *. rewrite Hd.
    destruct d; simpl in Hc; now rewrite Hc.
  - intros Hown [d ->] Hext.
    destruct obj as [props proto ext]. simpl in *. now rewrite Hown, Hext.
  - intros d -> Hc Hext.
    destruct obj as [props proto ext]. simpl in *.
    destruct (props !! prop) as [d'|].
    + specialize (Hc d' eq_refl). destruct d'; simpl in Hc; rewrite Hc; eauto.
    + rewrite Hext by done. eauto.
Qed.

(** X12. The getter installed by [instrumentProperty] hands the receiver
    on as a non-strict function finds it in [this]: a read of the
    instrumented accessor with the receiver [this] returns what the original
    getter returns for [JS.this_binding this] and leaves the page as that
    call does, with one event of access [get] carrying the name and the
    value logged after the call; a value the original throws passes through
    with nothing logged.  For a receiver that is an object, the usual case,
    that is the read of the original accessor with the same receiver; for
    [null], [undefined] or a primitive the original getter is called on the
    global object or on the wrapped primitive instead. *)
Theorem instrumented_getter_transparent (obj obj' : object)
    (name prop log_type : string) g s e c this w :
  find_descriptor obj prop = Some (AccessorProperty (Some g) s e c) ->
  instrumentProperty obj name prop log_type = Some obj' ->
  let receiver := JS.this_binding this in
  (JS.is_object this = true -> receiver = this) /\
  (forall w' v, call native g receiver [] w = (w', JS.Normal v) ->
     get_property native obj prop receiver w = (w', Got (Plain v)) /\
     get_property native obj' prop this w =
       (JS.log log_type (property_event name v "get") w', Got (Plain v))) /\
  (forall w' x, call native g receiver [] w = (w', JS.Throw x) ->
     get_property native obj prop receiver w = (w', Thrown x) /\
     get_property native obj' prop this w = (w', Thrown x)).
Proof.
  intros Hd Hi receiver.
  destruct (instrumentProperty_defines obj obj' name prop log_type _ Hd Hi)
    as (e' & c' & Hown & _).
  assert (find_descriptor obj' prop =
          Some (AccessorProperty (Some (GetterWrapper (Some g) name log_type))
                  (Some (SetterWrapper s name log_type)) e' c')) as Hd'.
  { apply find_descriptor_own. rewrite Hown. apply lookup_insert_eq. }
  split; [apply this_binding_object|].
  unfold get_property. rewrite Hd, Hd'. simpl. fold receiver.
  split; intros w' v ->; split; reflexivity.
Qed.

(** X13. The setter installed by [instrumentProperty] logs the event of
    access [set] with the assigned value first and then does what the
    original setter does when it is called, with the same argument, on the
    receiver as a non-strict function finds it in [this] (the receiver
    itself if it is an object); on an accessor without a setter, where an
    assignment in non-strict code did nothing before, the assignment is now
    logged and throws a [TypeError]. *)
Theorem instrumented_setter_logs_first (obj obj' : object)
    (name prop log_type : string) g os e c v this w :
  find_descriptor obj prop = Some (AccessorProperty g os e c) ->
  instrumentProperty obj name prop log_type = Some obj' ->
  let logged := JS.log log_type (property_event name v "set") w in
  let receiver := JS.this_binding this in
  (JS.is_object this = true -> receiver = this) /\
  (forall s, os = Some s ->
     set_property native obj' prop v this w =
       match call native s receiver [v] logged with
       | (w', JS.Normal _) => (w', obj', JS.Normal v)
       | (w', JS.Throw x) => (w', obj', JS.Throw x)
       end) /\
  (os = None ->
     set_property native obj prop v this w = (w, obj, JS.Normal v) /\
     set_property native obj' prop v this w =
       (logged, obj', JS.Throw TypeError)).
Proof.
  intros Hd Hi logged receiver.
  destruct (instrumentProperty_defines obj obj' name prop log_type _ Hd Hi)
    as (e' & c' & Hown & _). simpl in Hown.
  assert (find_descriptor obj' prop =
          Some (AccessorProperty (Some (GetterWrapper g name log_type))
                  (Some (SetterWrapper os name log_type)) e' c')) as Hd'.
  { apply find_descriptor_own. rewrite Hown. apply lookup_insert_eq. }
  split; [apply this_binding_object|]. split.
  - intros s ->. unfold set_property. rewrite Hd'. reflexivity.
  - intros ->. split.
    + unfold set_property, assign_own. rewrite Hd. reflexivity.
    + unfold set_property. rewrite Hd'. reflexivity.
Qed.

(** X14. [instrumentProperty] on a data property: the descriptor has no
    getter to call, so every read of the property that returned its value
    before throws a [TypeError] afterwards, and nothing is logged. *)
Theorem instrumented_data_property_unreadable (obj obj' : object)
    (name prop log_type : string) v wr e c this w :
  find_descriptor obj prop = Some (DataProperty v wr e c) ->
  instrumentProperty obj name prop log_type = Some obj' ->
  get_property native obj prop this w = (w, Got v) /\
  get_property native obj' prop this w = (w, Thrown TypeError).
Proof.
  intros Hd Hi.
  destruct (instrumentProperty_defines obj obj' name prop log_type _ Hd Hi)
    as (e' & c' & Hown & _). simpl in Hown.
  unfold get_property. rewrite Hd.
  rewrite (find_descriptor_own obj' prop _
             ltac:(rewrite Hown; apply lookup_insert_eq)).
  split; reflexivity.
Qed.

Lemma find_descriptor_frame (obj obj' : object) (k : string) :
  own obj' !! k = own obj !! k -> prototype obj' = prototype obj ->
  find_descriptor obj' k = find_descriptor obj k.
Proof.
  destruct obj as [props proto ext], obj' as [props' proto' ext']. simpl.
  now intros -> ->.
Qed.

(** X15. [instrumentProperty] changes nothing but the one property of the
    object itself: the prototype (even when the descriptor was found there)
    and the extensibility are kept, and every other property name has the
    same own property and the same descriptor on the chain as before. *)
Theorem instrumentProperty_frame (obj obj' : object)
    (name prop log_type : string) :
  instrumentProperty obj name prop log_type = Some obj' ->
  prototype obj' = prototype obj /\ extensible obj' = extensible obj /\
  (forall k, k <> prop ->
     own obj' !! k = own obj !! k /\
     find_descriptor obj' k = find_descriptor obj k).
Proof.
  intros Hi. destruct (find_descriptor obj prop) as [d|] eqn:Hd.
  - destruct (instrumentProperty_defines obj obj' name prop log_type d Hd Hi)
      as (e & c & Hown & Hproto & Hext).
    split; [done|]. split; [done|]. intros k Hk.
    assert (own obj' !! k = own obj !! k) as Hk'
      by (rewrite Hown; now apply lookup_insert_ne).
    split; [done|]. now apply find_descriptor_frame.
  - unfold instrumentProperty in Hi. rewrite Hd in Hi. injection Hi as <-.
    repeat split.
Qed.

(** X16. [instrumentObject] does not instrument an accessor: its [typeof]
    test calls the getter once, and the call of [instrumentProperty] that
    follows hands over name and property in exchanged places, so the
    descriptor is looked up under [name.prop]; when the chain has no
    property of that name, the object is left as it was. *)
Theorem instrumentObject_leaves_accessors (obj : object) (this : JS.value)
    (name prop log_type : string) g s e c w w' v :
  find_descriptor obj prop = Some (AccessorProperty (Some g) s e c) ->
  find_descriptor obj (name ++ "." ++ prop) = None ->
  call native g this [] w = (w', JS.Normal v) ->
  instrumentObject native obj this name [prop] log_type w =
    (w', obj, JS.Normal JS.Undefined).
Proof.
  intros Hd Hdot Hg. simpl. unfold instrument_one, get_property.
  rewrite Hd, Hg. unfold instrumentProperty. rewrite Hdot. reflexivity.
Qed.

(** X17. [instrumentObject] on a writable method of the object itself: no
    function is called, the property keeps its attributes and now holds the
    wrapper of the method, every other property and the prototype are as
    before, and a call of the wrapper calls the method on the receiver as a
    non-strict function finds it in [this] (the receiver itself if it is an
    object) and, when the method returns, logs the call on the channel under
    the name [name.prop] and completes with [undefined]; a value the method
    throws passes through with nothing logged. *)
Theorem instrumentObject_wraps_function (obj : object) (this : JS.value)
    (name prop log_type : string) f e c w :
  own obj !! prop = Some (DataProperty (Function f) true e c) ->
  let wrapper := FunctionWrapper f (name ++ "." ++ prop) log_type in
  exists obj',
    instrumentObject native obj this name [prop] log_type w =
      (w, obj', JS.Normal JS.Undefined) /\
    own obj' = <[prop := DataProperty (Function wrapper) true e c]> (own obj) /\
    prototype obj' = prototype obj /\
    (forall receiver w0,
       get_property native obj' prop receiver w0 = (w0, Got (Function wrapper))) /\
    (forall receiver arguments w0 w1 retval,
       call native f (JS.this_binding receiver) arguments w0 =
         (w1, JS.Normal retval) ->
       call native wrapper receiver arguments w0 =
         (JS.log log_type
            (JS.Object [("type", JS.Str "function");
                        ("name", JS.Str (name ++ "." ++ prop));
                        ("arguments", JS.Array arguments);
                        ("retval", retval)]) w1,
          JS.Normal JS.Undefined)) /\
    (forall receiver arguments w0 w1 x,
       call native f (JS.this_binding receiver) arguments w0 =
         (w1, JS.Throw x) ->
       call native wrapper receiver arguments w0 = (w1, JS.Throw x)) /\
    (forall receiver,
       JS.is_object receiver = true -> JS.this_binding receiver = receiver).
Proof.
  intros Hown wrapper. simpl. unfold instrument_one, get_property, assign_own.
  rewrite (find_descriptor_own obj prop _ Hown).
  destruct obj as [props proto ext]. simpl in *. rewrite Hown.
  eexists. split; [reflexivity|]. simpl.
  split; [reflexivity|]. split; [reflexivity|]. split; [|split; [|split]].
  - intros receiver w0. now rewrite lookup_insert_eq.
  - intros receiver arguments w0 w1 retval Hf.
    unfold JS.instrumentFunction. simpl. now rewrite Hf.
  - intros receiver arguments w0 w1 x Hf.
    unfold JS.instrumentFunction. simpl. now rewrite Hf.
  - apply this_binding_object.
Qed.

(** X18. [instrumentObject] on a method that cannot simply be replaced: a
    non-writable method is left as it was, without an error; an inherited
    method is wrapped in a new property of the object itself, the prototype
    being left alone, unless the object is not extensible, in which case
    nothing changes. *)
Theorem instrumentObject_function_edges (obj : object) (this : JS.value)
    (name prop log_type : string) f e c w :
  (own obj !! prop = Some (DataProperty (Function f) false e c) ->
     instrumentObject native obj this name [prop] log_type w =
       (w, obj, JS.Normal JS.Undefined)) /\
  (own obj !! prop = None ->
   find_descriptor obj prop = Some (DataProperty (Function f) true e c) ->
   extensible obj = true ->
     exists obj',
       instrumentObject native obj this name [prop] log_type w =
         (w, obj', JS.Normal JS.Undefined) /\
       own obj' =
         <[prop := DataProperty
                     (Function (FunctionWrapper f (name ++ "." ++ prop) log_type))
                     true true true]> (own obj) /\
       prototype obj' = prototype obj) /\
  (own obj !! prop = None ->
   find_descriptor obj prop = Some (DataProperty (Function f) true e c) ->
   extensible obj = false ->
     instrumentObject native obj this name [prop] log_type w =
       (w, obj, JS.Normal JS.Undefined)).
Proof.
  split; [|split].
  - intros Hown. simpl. unfold instrument_one, get_property, assign_own.
    rewrite (find_descriptor_own obj prop _ Hown). reflexivity.
  - intros Hown Hd Hext. simpl. unfold instrument_one, get_property, assign_own.
    rewrite Hd. destruct obj as [props proto ext]. simpl in *.
    rewrite Hown, Hext. eexists. split; [reflexivity|]. split; reflexivity.
  - intros Hown Hd Hext. simpl. unfold instrument_one, get_property, assign_own.
    rewrite Hd. destruct obj as [props proto ext]. simpl in *.
    now rewrite Hown, Hext.
Qed.

End InstrumentationProperties.

(** The accessor [userAgent] of the sample page, found on the prototype of
    [navigator], and [toDataURL] on the prototype of the canvas. *)
Lemma instrumentProperty_outcome_witness :
  Instrumentation.instrumentProperty Instrumentation.navigator
    "userAgent" "platform" "fingerprinting:misc" =
    Some Instrumentation.navigator /\
  Instrumentation.instrumentProperty
    (Instrumentation.Object (Instrumentation.own Instrumentation.navigator)
       (Some Instrumentation.Navigator_prototype) false)
    "userAgent" "userAgent" "fingerprinting:misc" = None.
Proof.
  split.
  - apply (instrumentProperty_outcome Instrumentation.navigator). reflexivity.
  - apply (instrumentProperty_outcome
             (Instrumentation.Object
                (Instrumentation.own Instrumentation.navigator)
                (Some Instrumentation.Navigator_prototype) false));
      [reflexivity|eexists; reflexivity|reflexivity].
Defined.

Lemma instrumented_getter_transparent_witness :
  let this := JS.Object [("appName", JS.Str "Netscape")] in
  Instrumentation.get_property Instrumentation.sample_native
    Instrumentation.navigator "userAgent" this Instrumentation.start =
    (Instrumentation.called_once,
     Instrumentation.Got (Instrumentation.Plain (JS.Str "Mozilla/5.0"))) /\
  Instrumentation.get_property Instrumentation.sample_native
    Instrumentation.instrumented_navigator "userAgent" this
    Instrumentation.start =
    (JS.log "fingerprinting:misc"
       (Instrumentation.property_event "userAgent" (JS.Str "Mozilla/5.0") "get")
       Instrumentation.called_once,
     Instrumentation.Got (Instrumentation.Plain (JS.Str "Mozilla/5.0"))).
Proof.
  destruct (instrumented_getter_transparent Instrumentation.sample_native
              Instrumentation.navigator Instrumentation.instrumented_navigator
              "userAgent" "userAgent" "fingerprinting:misc"
              (Instrumentation.Native 0) None true true
              (JS.Object [("appName", JS.Str "Netscape")])
              Instrumentation.start eq_refl eq_refl) as (_ & Hnormal & _).
  apply (Hnormal Instrumentation.called_once (JS.Str "Mozilla/5.0")).
  reflexivity.
Defined.

(** Assigning to [navigator.userAgent], which has no setter: nothing happens
    before the instrumentation; after it the assignment is logged and
    throws. *)
Lemma instrumented_setter_logs_first_witness :
  let this := JS.Object [("appName", JS.Str "Netscape")] in
  Instrumentation.set_property Instrumentation.sample_native
    Instrumentation.navigator "userAgent" (JS.Str "x") this
    Instrumentation.start =
    (Instrumentation.start, Instrumentation.navigator, JS.Normal (JS.Str "x")) /\
  Instrumentation.set_property Instrumentation.sample_native
    Instrumentation.instrumented_navigator "userAgent" (JS.Str "x") this
    Instrumentation.start =
    (JS.log "fingerprinting:misc"
       (Instrumentation.property_event "userAgent" (JS.Str "x") "set")
       Instrumentation.start,
     Instrumentation.instrumented_navigator,
     JS.Throw Instrumentation.TypeError).
Proof.
  destruct (instrumented_setter_logs_first Instrumentation.sample_native
              Instrumentation.navigator Instrumentation.instrumented_navigator
              "userAgent" "userAgent" "fingerprinting:misc"
              (Some (Instrumentation.Native 0)) None true true (JS.Str "x")
              (JS.Object [("appName", JS.Str "Netscape")])
              Instrumentation.start eq_refl eq_refl) as (_ & _ & Hnone).
  exact (Hnone eq_refl).
Defined.

(** [instrumentProperty] applied to the method [toDataURL], a data property:
    the method can no longer be read. *)
Lemma instrumented_data_property_unreadable_witness :
  let canvas' :=
    default Instrumentation.HTMLCanvasElement_prototype
      (Instrumentation.instrumentProperty
         Instrumentation.HTMLCanvasElement_prototype
         "toDataURL" "toDataURL" "fingerprinting:canvas") in
  Instrumentation.get_property Instrumentation.sample_native
    Instrumentation.HTMLCanvasElement_prototype "toDataURL" JS.Null
    Instrumentation.start =
    (Instrumentation.start,
     Instrumentation.Got (Instrumentation.Function (Instrumentation.Native 1))) /\
  Instrumentation.get_property Instrumentation.sample_native canvas'
    "toDataURL" JS.Null Instrumentation.start =
    (Instrumentation.start, Instrumentation.Thrown Instrumentation.TypeError).
Proof.
  apply (instrumented_data_property_unreadable Instrumentation.sample_native
           Instrumentation.HTMLCanvasElement_prototype _
           "toDataURL" "toDataURL" "fingerprinting:canvas"
           (Instrumentation.Function (Instrumentation.Native 1)) true true true);
    reflexivity.
Defined.

Lemma instrumentProperty_frame_witness :
  Instrumentation.prototype Instrumentation.instrumented_navigator =
    Some Instrumentation.Navigator_prototype /\
  Instrumentation.find_descriptor Instrumentation.instrumented_navigator
    "language" = None.
Proof.
  destruct (instrumentProperty_frame Instrumentation.navigator
              Instrumentation.instrumented_navigator
              "userAgent" "userAgent" "fingerprinting:misc" eq_refl)
    as (Hproto & _ & Hother).
  split; [exact Hproto|].
  destruct (Hother "language") as [_ ->]; [discriminate|reflexivity].
Defined.

(** [instrumentObject(navigator, 'navigator', ['userAgent'], ...)] calls the
    getter and leaves the accessor as it was. *)
Lemma instrumentObject_leaves_accessors_witness :
  Instrumentation.instrumentObject Instrumentation.sample_native
    Instrumentation.navigator JS.Null "navigator" ["userAgent"]
    "fingerprinting:misc" Instrumentation.start =
    (Instrumentation.called_once, Instrumentation.navigator,
     JS.Normal JS.Undefined).
Proof.
  apply (instrumentObject_leaves_accessors Instrumentation.sample_native
           Instrumentation.navigator JS.Null "navigator" "userAgent"
           "fingerprinting:misc" (Instrumentation.Native 0) None true true
           Instrumentation.start Instrumentation.called_once
           (JS.Str "Mozilla/5.0"));
    reflexivity.
Defined.

(** [instrumentObject(HTMLCanvasElement.prototype, 'HTMLCanvasElement',
    ['toDataURL'], 'fingerprinting:canvas')]: a call of the method is logged
    under the name the extractor looks for. *)
Lemma instrumentObject_wraps_function_witness :
  exists obj',
    Instrumentation.instrumentObject Instrumentation.sample_native
      Instrumentation.HTMLCanvasElement_prototype JS.Null "HTMLCanvasElement"
      ["toDataURL"] "fingerprinting:canvas" Instrumentation.start =
      (Instrumentation.start, obj', JS.Normal JS.Undefined) /\
    Instrumentation.get_property Instrumentation.sample_native obj'
      "toDataURL" JS.Null Instrumentation.start =
      (Instrumentation.start,
       Instrumentation.Got
         (Instrumentation.Function
            (Instrumentation.FunctionWrapper (Instrumentation.Native 1)
               "HTMLCanvasElement.toDataURL" "fingerprinting:canvas"))) /\
    Instrumentation.call Instrumentation.sample_native
      (Instrumentation.FunctionWrapper (Instrumentation.Native 1)
         "HTMLCanvasElement.toDataURL" "fingerprinting:canvas")
      (JS.Object [("width", JS.Number 300)]) [] Instrumentation.start =
      (JS.log "fingerprinting:canvas"
         (JS.Object [("type", JS.Str "function");
                     ("name", JS.Str "HTMLCanvasElement.toDataURL");
                     ("arguments", JS.Array []);
                     ("retval", JS.Str "data:image/png;base64,aGVsbG8=")])
         Instrumentation.called_once,
       JS.Normal JS.Undefined).
Proof.
  destruct (instrumentObject_wraps_function Instrumentation.sample_native
              Instrumentation.HTMLCanvasElement_prototype JS.Null
              "HTMLCanvasElement" "toDataURL" "fingerprinting:canvas"
              (Instrumentation.Native 1) true true Instrumentation.start
              eq_refl) as (obj' & Hrun & _ & _ & Hget & Hcall & _).
  exists obj'. split; [exact Hrun|]. split; [apply Hget|].
  apply (Hcall (JS.Object [("width", JS.Number 300)]) []
           Instrumentation.start Instrumentation.called_once
           (JS.Str "data:image/png;base64,aGVsbG8=")).
  reflexivity.
Defined.

(** A canvas element inherits [toDataURL]: instrumenting the element gives
    it a property of its own and leaves the prototype alone. *)
Lemma instrumentObject_function_edges_witness :
  let element :=
    Instrumentation.Object ∅
      (Some Instrumentation.HTMLCanvasElement_prototype) true in
  exists obj',
    Instrumentation.instrumentObject Instrumentation.sample_native element
      JS.Null "HTMLCanvasElement" ["toDataURL"] "fingerprinting:canvas"
      Instrumentation.start =
      (Instrumentation.start, obj', JS.Normal JS.Undefined) /\
    Instrumentation.prototype obj' =
      Some Instrumentation.HTMLCanvasElement_prototype.
Proof.
  destruct (instrumentObject_function_edges Instrumentation.sample_native
              (Instrumentation.Object ∅
                 (Some Instrumentation.HTMLCanvasElement_prototype) true)
              JS.Null "HTMLCanvasElement" "toDataURL" "fingerprinting:canvas"
              (Instrumentation.Native 1) true true Instrumentation.start)
    as (_ & Hinherited & _).
  destruct (Hinherited eq_refl eq_refl eq_refl) as (obj' & Hrun & _ & Hproto).
  exists obj'. split; [exact Hrun|exact Hproto].
Defined.

(** * Properties of the page comparison and of the utilities *)

Lemma pattern_split_nonempty (s : string) : Network.pattern_split s <> [].
Proof.
  induction s as [|c s IH]; simpl; [done|].
  destruct (Network.is_separator c); [done|].
  destruct (Network.pattern_split s); done.
Qed.

Lemma pattern_split_app (a b : string) (sep : ascii) :
  Network.is_separator sep = true ->
  Network.pattern_split (a ++ String sep b) =
  Network.pattern_split a ++ Network.pattern_split b.
Proof.
  intros Hsep. induction a as [|c a IH]; simpl.
  - now rewrite Hsep.
  - rewrite IH. destruct (Network.is_separator c); [reflexivity|].
    pose proof (pattern_split_nonempty a) as Hne.
    destruct (Network.pattern_split a); [done|reflexivity].
Qed.

Lemma token_set_app (a b : string) (sep : ascii) :
  Network.is_separator sep = true ->
  Network.token_set (a ++ String sep b) =
  Network.token_set a ∪ Network.token_set b.
Proof.
  intros Hsep. unfold Network.token_set.
  rewrite (pattern_split_app a b sep Hsep), filter_app.
  apply list_to_set_app_L.
Qed.

Lemma token_set_spec (s token : string) :
  token ∈ Network.token_set s <->
  In token (Network.pattern_split s) /\ str_contains "/" token = false.
Proof.
  unfold Network.token_set.
  rewrite elem_of_list_to_set, list_elem_of_filter, list_elem_of_In. tauto.
Qed.

(** X19. [_jaccard_index] raises [ZeroDivisionError] exactly when every
    token of both inputs contains a slash, so that both token sets are
    empty. *)
Theorem jaccard_zero_division (a b : string) :
  Network._jaccard_index a b = Network.ZeroDivisionError <->
  (forall token,
     In token (Network.pattern_split a ++ Network.pattern_split b) ->
     str_contains "/" token = true).
Proof.
  unfold Network._jaccard_index.
  destruct (Nat.eqb_spec
              (size (Network.token_set a ∪ Network.token_set b)) 0) as [Hz|Hnz].
  - split; [intros _|done]. apply size_empty_iff in Hz.
    intros token Hin. destruct (str_contains "/" token) eqn:E; [done|].
    assert (token ∈ Network.token_set a ∪ Network.token_set b) as Hel.
    { apply elem_of_union. apply in_app_or in Hin as [Hin|Hin];
        [left|right]; now apply token_set_spec. }
    rewrite Hz in Hel. now apply not_elem_of_empty in Hel.
  - split; [done|]. intros Hall. destruct Hnz.
    apply size_empty_iff, elem_of_equiv_empty.
    intros token [Hel|Hel]%elem_of_union;
      apply token_set_spec in Hel as [Hin Hno];
      rewrite Hall in Hno; try done; apply in_or_app; auto.
Qed.

(** X20. [_jaccard_index] is symmetric in its two arguments, the exception
    included. *)
Theorem jaccard_symmetric (a b : string) :
  Network._jaccard_index a b = Network._jaccard_index b a.
Proof.
  unfold Network._jaccard_index.
  assert (Network.token_set a ∩ Network.token_set b =
          Network.token_set b ∩ Network.token_set a) as ->
    by apply (comm_L _).
  assert (Network.token_set a ∪ Network.token_set b =
          Network.token_set b ∪ Network.token_set a) as ->
    by apply (comm_L _).
  reflexivity.
Qed.

(** X21. When [_jaccard_index] returns, it is the quotient of a numerator
    that is at most the denominator and a positive denominator; the two are
    equal exactly when the two inputs have the same token set, and the
    numerator is zero exactly when they share no token. *)
Theorem jaccard_value (a b : string) (n d : nat) :
  Network._jaccard_index a b = Network.Ratio n d ->
  (0 < d)%nat /\ (n <= d)%nat /\
  (n = d <-> Network.token_set a = Network.token_set b) /\
  (n = 0%nat <-> Network.token_set a ## Network.token_set b).
Proof.
  unfold Network._jaccard_index.
  set (A := Network.token_set a). set (B := Network.token_set b).
  destruct (Nat.eqb_spec (size (A ∪ B)) 0) as [Hz|Hnz]; [done|].
  intros [= <- <-].
  assert (A ∩ B ⊆ A ∪ B) as Hsub.
  { intros x [Hx _]%elem_of_intersection. apply elem_of_union. now left. }
  split; [lia|]. split; [now apply subseteq_size|]. split.
  - split.
    + intros Hsz.
      assert (A ∩ B = A ∪ B) as Heq
        by (apply set_subseteq_size_eq; [done|lia]).
      apply set_eq. intros x. split; intros Hx.
      * assert (x ∈ A ∩ B) as Hi
          by (rewrite Heq; apply elem_of_union; now left).
        now apply elem_of_intersection in Hi.
      * assert (x ∈ A ∩ B) as Hi
          by (rewrite Heq; apply elem_of_union; now right).
        now apply elem_of_intersection in Hi.
    + intros ->.
      assert (B ∩ B = B) as -> by apply (idemp_L _).
      assert (B ∪ B = B) as -> by apply (idemp_L _).
      reflexivity.
  - rewrite size_empty_iff. symmetry. apply disjoint_intersection.
Qed.

(** X22. [_jaccard_index] looks only at the set of tokens: exchanging two
    parts of an input around a separator, with either separator, or
    repeating a part, does not change the result. *)
Theorem jaccard_ignores_order_and_repetition (a b c : string) (s1 s2 : ascii) :
  Network.is_separator s1 = true -> Network.is_separator s2 = true ->
  Network._jaccard_index (a ++ String s1 b) c =
    Network._jaccard_index (b ++ String s2 a) c /\
  Network._jaccard_index (a ++ String s1 a) c = Network._jaccard_index a c.
Proof.
  intros H1 H2. unfold Network._jaccard_index.
  rewrite !(token_set_app _ _ s1 H1), (token_set_app b a s2 H2).
  assert (Network.token_set b ∪ Network.token_set a =
          Network.token_set a ∪ Network.token_set b) as ->
    by apply (comm_L _).
  split; [reflexivity|].
  assert (Network.token_set a ∪ Network.token_set a = Network.token_set a)
    as -> by apply (idemp_L _).
  reflexivity.
Qed.

Lemma no_char_app (sep : ascii) (a b : string) :
  str_contains (String sep EmptyString) a = false ->
  str_contains (String sep EmptyString) b = false ->
  str_contains (String sep EmptyString) (a ++ b) = false.
Proof.
  intros Ha Hb. induction a as [|c a IH]; [exact Hb|].
  apply no_char_cons in Ha as [Hc Ha]. specialize (IH Ha).
  change ((String c a ++ b)%string) with (String c (a ++ b)).
  cbn [str_contains String.prefix]. rewrite IH, orb_false_r.
  destruct (ascii_dec sep c) as [->|]; [|reflexivity].
  now rewrite Ascii.eqb_refl in Hc.
Qed.

Lemma string_app_assoc (a b c : string) :
  (a ++ (b ++ c))%string = ((a ++ b) ++ c)%string.
Proof.
  induction a as [|x a IH]; [reflexivity|].
  change (String x (a ++ (b ++ c)) = String x ((a ++ b) ++ c)).
  now rewrite IH.
Qed.

(** X23. The URL [scan_site] retries with: for a site URL that is a scheme
    without a slash, [://] and a rest, it is [https://] and that rest; for a
    string without a slash the subscript raises [IndexError]. *)
Theorem https_url_replaces_scheme (scheme rest : string) :
  str_contains "/" scheme = false ->
  Network.https_url (scheme ++ "://" ++ rest) = Some ("https://" ++ rest)%string /\
  Network.https_url scheme = None.
Proof.
  intros Hno. unfold Network.https_url. split.
  - assert ((scheme ++ "://" ++ rest)%string =
            ((scheme ++ ":") ++ String "/" ("/" ++ rest))%string) as ->
      by (rewrite <- string_app_assoc; reflexivity).
    rewrite (py_split1_cut "/" (scheme ++ ":") ("/" ++ rest)).
    + reflexivity.
    + now apply no_char_app.
  - now rewrite (py_split1_whole "/" scheme Hno).
Qed.

(** X24. [copy_to] only appends to the destination; when no read before the
    end of the source returns an empty block, it writes all the blocks in
    order and leaves the source exhausted; and it stops at the first empty
    read, leaving what comes after it unread. *)
Theorem copy_to_copies_everything (src : list (list byte)) (dest : list byte) :
  dest `prefix_of` snd (Utils.copy_to src dest) /\
  (Forall (fun data => data <> []) src ->
     Utils.copy_to src dest = ([], dest ++ concat src)) /\
  (forall before after,
     src = before ++ [] :: after -> Forall (fun data => data <> []) before ->
     Utils.copy_to src dest = (after, dest ++ concat before)).
Proof.
  split; [|split].
  - revert dest. induction src as [|data src IH]; intros dest; [reflexivity|].
    simpl. destruct data as [|x data]; [reflexivity|].
    etrans; [|apply IH]. now apply prefix_app_r.
  - intros Hall. revert dest.
    induction Hall as [|data src Hdata _ IH]; intros dest; simpl.
    + now rewrite app_nil_r.
    + destruct data as [|x data]; [done|]. now rewrite IH, app_assoc.
  - intros before after -> Hall. revert dest.
    induction Hall as [|data src Hdata _ IH]; intros dest; simpl.
    + now rewrite app_nil_r.
    + destruct data as [|x data]; [done|]. now rewrite IH, app_assoc.
Qed.

(** ** The further properties at examples *)

(** An audio message without a name: [KeyError], and nothing has changed. *)
Lemma receive_log_failure_atomic_witness :
  snd (receive_log "fingerprinting:audio" nameless_message []
         (init empty_result)) = Raises (KeyError "name") /\
  fst (receive_log "fingerprinting:audio" nameless_message []
         (init empty_result)) = init empty_result.
Proof.
  assert (snd (receive_log "fingerprinting:audio" nameless_message []
                 (init empty_result)) = Raises (KeyError "name")) as Hraise
    by reflexivity.
  split; [exact Hraise|].
  destruct (receive_log_failure_atomic _ _ _ _ _ Hraise)
    as [_ [Hsame|[Hch _]]].
  - exact Hsame.
  - discriminate Hch.
Defined.

Lemma export_without_retval_witness :
  let s := fst (_receive_canvas_log export_message
                  [PStr "wrapper"; PStr "export"] (init empty_result)) in
  snd (_receive_canvas_log export_message [PStr "wrapper"; PStr "export"]
         (init empty_result)) = Raises (KeyError "retval") /\
  _canvas_call_stack s = Some [PStr "export"] /\
  _canvas_image s = PNone.
Proof.
  assert (export_message !! "name" = Some (PStr "HTMLCanvasElement.toDataURL"))
    as Hn by reflexivity.
  assert (export_message !! "arguments" = Some (PList [])) as Ha
    by reflexivity.
  assert (export_message !! "retval" = None) as Hr by reflexivity.
  destruct (export_without_retval export_message
              [PStr "wrapper"; PStr "export"] (init empty_result) (PList [])
              Hn Ha Hr) as (Hraise & _ & Hstack & Himage).
  split; [exact Hraise|]. split; [exact Hstack|exact Himage].
Defined.

(** Three tokens each, two of them shared: two over four. *)
Lemma jaccard_value_witness :
  Network._jaccard_index "a b c" "b c d" = Network.Ratio 2 4 /\
  (2 <= 4)%nat.
Proof.
  split; [reflexivity|].
  destruct (jaccard_value "a b c" "b c d" 2 4 eq_refl) as (_ & Hle & _).
  exact Hle.
Defined.

Lemma jaccard_ignores_order_and_repetition_witness :
  Network._jaccard_index "x y" "x y" = Network._jaccard_index "y
x" "x y" /\
  Network._jaccard_index "x x" "x y" = Network._jaccard_index "x" "x y".
Proof.
  apply (jaccard_ignores_order_and_repetition "x" "y" "x y" " " "010");
    reflexivity.
Defined.

Lemma https_url_replaces_scheme_witness :
  Network.https_url "http://example.com/a/b" = Some "https://example.com/a/b" /\
  Network.https_url "http" = None.
Proof.
  apply (https_url_replaces_scheme "http" "example.com/a/b"). reflexivity.
Defined.
